(** * Password_Policy_Checker.py and Mini_Store.py: shallow embeddings
      and their properties

    The first script reads a username and a password, runs seven checks
    in a fixed order, and prints a score out of 7, a level and the
    reasons of the failed checks.  The second is a small store: an
    inventory of products and a shopping cart that takes units off the
    stock (module [MiniStore], further down).

    Python text is a sequence of Unicode code points.  Code points are
    modelled as [N], a [str] as a list of them.  The script compares
    characters with ASCII literals itself; what it takes from the Python
    runtime ([str.lower], [str.swapcase], [str.isalnum], the whitespace
    class of [str.strip]) is the class [Unicode] below, which fixes those
    operations on ASCII text only. *)

From Stdlib Require Import List Bool Ascii String NArith ZArith Lia.
From Stdlib Require Import DecimalString Permutation.
Import ListNotations.

Local Open Scope N_scope.

(** ** Text *)

Definition codepoint : Type := N.
Definition text : Type := list codepoint.

(** [ord c] for an ASCII literal of the source. *)
Definition ord (c : ascii) : codepoint := N_of_ascii c.

(** A string literal of the source as the text it denotes. *)
Definition str (s : string) : text := map ord (list_ascii_of_string s).

(** [len(s)]: the number of code points. *)
Definition len (s : text) : nat := List.length s.

Definition text_eqb (a b : text) : bool :=
  if list_eq_dec N.eq_dec a b then true else false.

Definition is_ascii (c : codepoint) : bool := c <? 128.

(** ['a' <= character <= 'z'] and ['A' <= character <= 'Z']. *)
Definition is_lower (character : codepoint) : bool :=
  (ord "a" <=? character) && (character <=? ord "z").
Definition is_upper (character : codepoint) : bool :=
  (ord "A" <=? character) && (character <=? ord "Z").
Definition is_digit (character : codepoint) : bool :=
  (ord "0" <=? character) && (character <=? ord "9").

(** The runtime's operations restricted to ASCII code points. *)
Definition ascii_lower (c : codepoint) : codepoint :=
  if is_upper c then c + 32 else c.
Definition ascii_swapcase (c : codepoint) : codepoint :=
  if is_upper c then c + 32 else if is_lower c then c - 32 else c.
Definition ascii_isalnum (c : codepoint) : bool :=
  is_lower c || is_upper c || is_digit c.
(** Tab, LF, VT, FF, CR, the separators FS GS RS US, and space. *)
Definition ascii_isspace (c : codepoint) : bool :=
  ((9 <=? c) && (c <=? 13)) || ((28 <=? c) && (c <=? 32)).

(** ** The Python runtime's Unicode operations

    [lower] and [swapcase] work on whole strings (their results can
    change length outside ASCII); [isalnum] and [isspace] are asked of
    single characters. *)
Class Unicode : Type := {
  lower : text -> text;
  swapcase : text -> text;
  isalnum : codepoint -> bool;
  isspace : codepoint -> bool;
  lower_ascii : forall s,
    forallb is_ascii s = true -> lower s = map ascii_lower s;
  swapcase_ascii : forall s,
    forallb is_ascii s = true -> swapcase s = map ascii_swapcase s;
  isalnum_ascii : forall c,
    is_ascii c = true -> isalnum c = ascii_isalnum c;
  isspace_ascii : forall c,
    is_ascii c = true -> isspace c = ascii_isspace c
}.

(** A runtime that knows ASCII only: every other code point is caseless,
    not alphanumeric and not whitespace. *)
#[refine] Instance ascii_only : Unicode := {|
  lower := map ascii_lower;
  swapcase := map ascii_swapcase;
  isalnum := fun c => is_ascii c && ascii_isalnum c;
  isspace := fun c => is_ascii c && ascii_isspace c
|}.
Proof.
  - reflexivity.
  - reflexivity.
  - intros c H; rewrite H; reflexivity.
  - intros c H; rewrite H; reflexivity.
Defined.

(** ** str.strip() *)

Fixpoint lstrip_by (sp : codepoint -> bool) (s : text) : text :=
  match s with
  | [] => []
  | c :: rest => if sp c then lstrip_by sp rest else s
  end.

Definition rstrip_by (sp : codepoint -> bool) (s : text) : text :=
  rev (lstrip_by sp (rev s)).

Definition strip_by (sp : codepoint -> bool) (s : text) : text :=
  rstrip_by sp (lstrip_by sp s).

(** [s.strip()]: leading and trailing whitespace removed. *)
Definition strip `{Unicode} (s : text) : text := strip_by isspace s.

(** ** str.translate over a str.maketrans table *)

Definition table : Type := list (codepoint * codepoint).

Fixpoint table_get (t : table) (c : codepoint) : option codepoint :=
  match t with
  | [] => None
  | (k, v) :: t' => if N.eqb k c then Some v else table_get t' c
  end.

(** A character with an entry is replaced by it, any other is kept. *)
Definition translate (t : table) (s : text) : text :=
  map (fun c => match table_get t c with Some v => v | None => c end) s.

(** ** Score and failed parameters *)

Record State : Type := mkState {
  score : Z;
  failed_parameters : list string
}.

Definition top_score : Z := 7.

Definition initial : State := mkState top_score [].

(** [score -= 1; failed_parameters.append(reason)] *)
Definition penalize (reason : string) (st : State) : State :=
  mkState (score st - 1) (failed_parameters st ++ [reason]).

(** ** The seven checks, in source order *)

Definition reason_length : string :=
  "Password must be longer than 8 characters.".
Definition reason_combo : string :=
  "Password Failed: At least one letter and one special character must be present.".
Definition reason_same : string :=
  "Password cannot be the same as username.".
Definition reason_case : string :=
  "Password cannot be all-lowercase or all-uppercase.".
Definition reason_swapcase : string :=
  "Password is swapcase version of username.".
Definition reason_symbols : string :=
  "Password contains symbols replacing letters (e.g. '@' for 'a').".
Definition reason_common : string :=
  "Password is too common or similar to 'password'.".

(** *** length Checker *)

Definition length_fails (password : text) : bool :=
  (len password <=? 8)%nat.

Definition length_checker (password : text) (st : State) : State :=
  if length_fails password then penalize reason_length st else st.

(** *** Special Letters Checker and Letter Checker *)

Definition specials : list codepoint :=
  [ord "!"; ord "@"; ord "$"; ord "?"].

(** [character in chars], on a list or on a string of characters. *)
Fixpoint contains (chars : list codepoint) (character : codepoint) : bool :=
  match chars with
  | [] => false
  | x :: chars' => if N.eqb character x then true else contains chars' character
  end.

(** [flag = False; for character in password: if test: flag = True; break] *)
Fixpoint scan_until (test : codepoint -> bool) (password : text) : bool :=
  match password with
  | [] => false
  | character :: rest => if test character then true else scan_until test rest
  end.

Definition check_special (password : text) : bool :=
  scan_until (contains specials) password.

Definition check_letter (password : text) : bool :=
  scan_until (fun character => is_lower character || is_upper character)
             password.

Definition combo_fails (password : text) : bool :=
  negb (check_letter password && check_special password).

Definition combo_checker (password : text) (st : State) : State :=
  if combo_fails password then penalize reason_combo st else st.

(** *** Not equal to username Checker *)

Definition same_fails (username password : text) : bool :=
  text_eqb password username.

Definition same_checker (username password : text) (st : State) : State :=
  if same_fails username password then penalize reason_same st else st.

(** *** Case Checker: one pass, two flags, no break *)

Definition case_step (flags : bool * bool) (character : codepoint)
  : bool * bool :=
  let (check_lower, check_upper) := flags in
  if is_lower character then (true, check_upper)
  else if is_upper character then (check_lower, true)
  else (check_lower, check_upper).

Definition case_flags (password : text) : bool * bool :=
  fold_left case_step password (false, false).

Definition check_lower (password : text) : bool := fst (case_flags password).
Definition check_upper (password : text) : bool := snd (case_flags password).

Definition case_fails (password : text) : bool :=
  (check_lower password || check_upper password)
  && negb (check_lower password && check_upper password).

Definition case_checker (password : text) (st : State) : State :=
  if case_fails password then penalize reason_case st else st.

(** *** Swapcase of username Checker *)

Definition swapcase_fails `{Unicode} (username password : text) : bool :=
  negb (text_eqb password username)
  && text_eqb password (swapcase username).

Definition swapcase_checker `{Unicode} (username password : text)
  (st : State) : State :=
  if swapcase_fails username password then penalize reason_swapcase st
  else st.

(** *** Symbol-replacement *)

Definition t_i : table :=
  [(ord "@", ord "a"); (ord "$", ord "s"); (ord "!", ord "i");
   (ord "0", ord "o")].
Definition t_l : table :=
  [(ord "@", ord "a"); (ord "$", ord "s"); (ord "!", ord "l");
   (ord "0", ord "o")].

Definition p_norm_i `{Unicode} (password : text) : text :=
  translate t_i (lower password).
Definition p_norm_l `{Unicode} (password : text) : text :=
  translate t_l (lower password).

(** [any(c in '@$!0' for c in password)] *)
Definition used_symbols (password : text) : bool :=
  scan_until (contains (str "@$!0")) password.

Definition symbols_fails `{Unicode} (username password : text) : bool :=
  let u_low := lower username in
  used_symbols password
  && (text_eqb (p_norm_i password) u_low
      || text_eqb (p_norm_l password) u_low).

Definition symbols_checker `{Unicode} (username password : text)
  (st : State) : State :=
  if symbols_fails username password then penalize reason_symbols st
  else st.

(** *** Common or password-like *)

Definition common_pw : list text :=
  map str
    ["123456"; "12345678"; "123456789"; "12345"; "111111";
     "qwerty"; "asdfgh"; "zxcvbnm"; "password"; "admin"]%string.

(** [pw_low in common_pw] *)
Definition in_set (s : text) (set : list text) : bool :=
  existsb (text_eqb s) set.

Definition t_pw : table :=
  [(ord "@", ord "a"); (ord "$", ord "s"); (ord "0", ord "o")].

Definition pw_norm_alnum `{Unicode} (password : text) : text :=
  let pw_low := lower password in
  let pw_norm := translate t_pw pw_low in
  filter isalnum pw_norm.

(** The source's [if ... else: ... if ...], with its two penalties. *)
Definition common_checker `{Unicode} (password : text) (st : State)
  : State :=
  let pw_low := lower password in
  if in_set pw_low common_pw then penalize reason_common st
  else
    if text_eqb (pw_norm_alnum password) (str "password")
    then penalize reason_common st
    else st.

Definition common_fails `{Unicode} (password : text) : bool :=
  in_set (lower password) common_pw
  || text_eqb (pw_norm_alnum password) (str "password").

(** ** The whole evaluation *)

Definition evaluate `{Unicode} (username password : text) : State :=
  let st := initial in
  let st := length_checker password st in
  let st := combo_checker password st in
  let st := same_checker username password st in
  let st := case_checker password st in
  let st := swapcase_checker username password st in
  let st := symbols_checker username password st in
  let st := common_checker password st in
  st.

(** The checks as a sequence, and the state after each of them. *)
Definition checkers `{Unicode} (username password : text)
  : list (State -> State) :=
  [length_checker password; combo_checker password;
   same_checker username password; case_checker password;
   swapcase_checker username password; symbols_checker username password;
   common_checker password].

Fixpoint states_after (cs : list (State -> State)) (st : State)
  : list State :=
  match cs with
  | [] => []
  | c :: cs' => c st :: states_after cs' (c st)
  end.

(** Which checks fail, with their reasons, in source order. *)
Definition verdicts `{Unicode} (username password : text)
  : list (bool * string) :=
  [(length_fails password, reason_length);
   (combo_fails password, reason_combo);
   (same_fails username password, reason_same);
   (case_fails password, reason_case);
   (swapcase_fails username password, reason_swapcase);
   (symbols_fails username password, reason_symbols);
   (common_fails password, reason_common)].

Definition failed_reasons (vs : list (bool * string)) : list string :=
  map snd (filter fst vs).

Definition failed_count (vs : list (bool * string)) : nat :=
  List.length (filter fst vs).

(** ** Output *)

Definition level_of (score : Z) : string :=
  if (score >=? 5)%Z then "Strong"
  else if (score >=? 3)%Z then "Medium"
  else "Weak".

Definition level `{Unicode} (username password : text) : string :=
  level_of (score (evaluate username password)).

(** [f"{n}"] for an integer. *)
Definition fmt_int (n : Z) : string := NilZero.string_of_int (Z.to_int n).

Definition newline : string := String (ascii_of_nat 10) EmptyString.

(** What the script prints, one entry per [print] call. *)
Definition report (st : State) : list string :=
  [newline;
   ("Password Strength: " ++ fmt_int (score st) ++ "/" ++ fmt_int top_score)%string;
   ("Level: " ++ level_of (score st))%string;
   "Failed Checks:"%string]
  ++ map (fun reason => ("- " ++ reason)%string) (failed_parameters st).

(** The script: both inputs are stripped as they are read. *)
Definition main `{Unicode} (raw_username raw_password : text)
  : list string :=
  let username := strip raw_username in
  let password := strip raw_password in
  report (evaluate username password).

(** * Mini_Store.py: inventory and cart

    Products are objects shared between the store's list and the cart's
    items, and both sides update their stock in place.  The model keeps
    the objects in a heap (a list, an object's reference being its
    index); the store is a list of references and a cart item holds the
    reference of its product.  A price is a Python [float]: it is
    stored, overwritten and tested against zero, never computed with
    here, so its type and the test are parameters. *)

Module MiniStore.

(** A normal return, or [raise ValueError(msg)]. *)
Inductive result (A : Type) : Type :=
| Ok (a : A)
| ValueError (msg : string).
Arguments Ok {A} a.
Arguments ValueError {A} msg.

Module Product.
Record t {float : Type} : Type := mk {
  name : text;
  price : float;
  stock : Z;
  category : text
}.
Arguments t float : clear implicits.
End Product.

Module CartItem.
Record t : Type := mk {
  product : nat;
  quantity : Z
}.
End CartItem.

(** In-place update of the object at index [i]; nothing is at an index
    beyond the list. *)
Fixpoint modify {A : Type} (l : list A) (i : nat) (f : A -> A) : list A :=
  match l, i with
  | [], _ => []
  | x :: l', O => f x :: l'
  | x :: l', S i' => x :: modify l' i' f
  end.

(** [del l[i]] *)
Fixpoint remove_at {A : Type} (i : nat) (l : list A) : list A :=
  match l, i with
  | [], _ => []
  | _ :: l', O => l'
  | x :: l', S i' => x :: remove_at i' l'
  end.

(** The position of the first element that passes the test. *)
Fixpoint find_index {A : Type} (test : A -> bool) (l : list A) : option nat :=
  match l with
  | [] => None
  | x :: l' => if test x then Some O else option_map S (find_index test l')
  end.

Section Model.
Context `{Unicode} {float : Type}.

(** [price < 0] *)
Variable negative : float -> bool.

Definition heap : Type := list (Product.t float).
Definition ref : Type := nat.

(** [Product(name, price, stock, category)] with its [__post_init__]. *)
Definition new_Product (name : text) (price : float) (stock : Z)
  (category : text) : result (Product.t float) :=
  if negative price then ValueError "Price cannot be negative."
  else if (stock <? 0)%Z then ValueError "Stock cannot be negative."
  else Ok (Product.mk float (strip name) price stock category).

(** [x or default] on strings: the empty string is falsy. *)
Definition or_else (x default : text) : text :=
  match x with
  | [] => default
  | _ :: _ => x
  end.

(** [p.name.lower() == name_norm] for the object behind [r]. *)
Definition name_matches (h : heap) (name_norm : text) (r : ref) : bool :=
  match nth_error h r with
  | Some p => text_eqb (lower (Product.name p)) name_norm
  | None => false
  end.

(** *** Store *)

Definition find_product (h : heap) (products : list ref) (name : text)
  : option ref :=
  let name_norm := lower (strip name) in
  find (name_matches h name_norm) products.

(** Returns the heap, the store's list and the product returned. *)
Definition add_product (h : heap) (products : list ref) (name : text)
  (price : float) (stock : Z) (category : text)
  : result (heap * list ref * ref) :=
  match find_product h products name with
  | Some existing =>
      let h' := modify h existing (fun p =>
        Product.mk float (Product.name p) price (Product.stock p + stock)
          (or_else category (Product.category p))) in
      Ok (h', products, existing)
  | None =>
      match new_Product name price stock (or_else category (str "General")) with
      | ValueError msg => ValueError msg
      | Ok product => Ok (h ++ [product], products ++ [List.length h],
                          List.length h)
      end
  end.

(** The objects behind a list of references. *)
Definition snapshot (h : heap) (products : list ref) : list (Product.t float) :=
  flat_map (fun r => match nth_error h r with
                     | Some p => [p]
                     | None => []
                     end) products.

(** [{"products": [asdict(p) for p in self.products]}]: the value under
    the one key, a dict per product with its four fields. *)
Definition to_json (h : heap) (products : list ref)
  : list (text * float * Z * text) :=
  map (fun p => (Product.name p, Product.price p, Product.stock p,
                 Product.category p))
      (snapshot h products).

(** The comprehension that builds a [Product] from every dict of
    [ds]: the first constructor that raises ends it. *)
Fixpoint build_products (ds : list (text * float * Z * text))
  : result (list (Product.t float)) :=
  match ds with
  | [] => Ok []
  | (name, price, stock, category) :: ds' =>
      match new_Product name price stock category with
      | ValueError msg => ValueError msg
      | Ok p =>
          match build_products ds' with
          | ValueError msg => ValueError msg
          | Ok ps => Ok (p :: ps)
          end
      end
  end.

(** [data.get("products", [])] is [None] when the key is missing.  The
    new objects are fresh; the store's list is replaced by them. *)
Definition from_json (h : heap)
  (data : option (list (text * float * Z * text)))
  : result (heap * list ref) :=
  let ds := match data with Some ds => ds | None => [] end in
  match build_products ds with
  | ValueError msg => ValueError msg
  | Ok ps => Ok (h ++ ps, seq (List.length h) (List.length ps))
  end.

(** *** Cart *)

(** The position in [items] of the first item whose product has the
    name, compared as in [find_product]. *)
Definition _find_item (h : heap) (items : list CartItem.t)
  (product_name : text) : option nat :=
  let name_norm := lower (strip product_name) in
  find_index (fun it => name_matches h name_norm (CartItem.product it)) items.

(** [None] only for a reference that is not in the heap, which Python
    cannot hold.  Otherwise the returned flag, the heap, the items and
    what was printed. *)
Definition add_to_cart (h : heap) (items : list CartItem.t) (product : ref)
  (quantity : Z)
  : option (bool * heap * list CartItem.t * list string) :=
  match nth_error h product with
  | None => None
  | Some p =>
      if (quantity <=? 0)%Z
      then Some (false, h, items, ["Quantity must be positive."%string])
      else if (Product.stock p <? quantity)%Z
      then Some (false, h, items, ["Not enough stock available."%string])
      else
        let h' := modify h product (fun p =>
          Product.mk float (Product.name p) (Product.price p)
            (Product.stock p - quantity) (Product.category p)) in
        match _find_item h' items (Product.name p) with
        | Some i =>
            Some (true, h',
                  modify items i (fun existing =>
                    CartItem.mk (CartItem.product existing)
                                (CartItem.quantity existing + quantity)),
                  [])
        | None =>
            Some (true, h', items ++ [CartItem.mk product quantity], [])
        end
  end.

(** [self.items.remove(item)] removes the first item equal to [item];
    an equal item has the same product name, so it is the found one. *)
Definition remove_from_cart (h : heap) (items : list CartItem.t)
  (product_name : text) : bool * heap * list CartItem.t :=
  match _find_item h items product_name with
  | None => (false, h, items)
  | Some i =>
      match nth_error items i with
      | None => (false, h, items)
      | Some item =>
          let h' := modify h (CartItem.product item) (fun p =>
            Product.mk float (Product.name p) (Product.price p)
              (Product.stock p + CartItem.quantity item)
              (Product.category p)) in
          (true, h', remove_at i items)
      end
  end.

Definition is_empty (items : list CartItem.t) : bool :=
  (List.length items =? 0)%nat.

Definition clear (items : list CartItem.t) : list CartItem.t := [].

(** *** Listing by category *)

(** [by_cat.setdefault(cat, []).append(p)] on a dict in insertion
    order. *)
Fixpoint by_cat_add (by_cat : list (text * list (Product.t float)))
  (p : Product.t float) : list (text * list (Product.t float)) :=
  match by_cat with
  | [] => [(Product.category p, [p])]
  | (cat, plist) :: rest =>
      if text_eqb cat (Product.category p)
      then (cat, plist ++ [p]) :: rest
      else (cat, plist) :: by_cat_add rest p
  end.

Definition group_by_category (products : list (Product.t float))
  : list (text * list (Product.t float)) :=
  fold_left by_cat_add products [].

(** A printed line: fixed text, a category heading, or a numbered
    product (the product's own text needs the float format). *)
Inductive line : Type :=
| Text (s : string)
| Heading (cat : text)
| Numbered (idx : Z) (p : Product.t float).

(** The inner loop, returning the lines and the next index. *)
Fixpoint print_plist (idx : Z) (plist : list (Product.t float))
  : list line * Z :=
  match plist with
  | [] => ([], idx)
  | p :: rest =>
      let (ls, idx') := print_plist (idx + 1) rest in
      (Numbered idx p :: ls, idx')
  end.

Fixpoint print_by_cat (idx : Z) (by_cat : list (text * list (Product.t float)))
  : list line :=
  match by_cat with
  | [] => []
  | (cat, plist) :: rest =>
      let (ls, idx') := print_plist idx plist in
      Heading cat :: ls ++ print_by_cat idx' rest
  end.

Definition format_products (h : heap) (store_products : list ref)
  : list line :=
  let products := snapshot h store_products in
  match products with
  | [] => [Text "No products yet."]
  | _ :: _ =>
      Text "Available products:"
      :: print_by_cat 1 (group_by_category products)
  end.

(** *** Notions the store's properties are stated with *)

(** Every reference of the list is an object of the heap. *)
Definition wf_refs (h : heap) (rs : list ref) : Prop :=
  Forall (fun r => (r < List.length h)%nat) rs.

(** The name a product is found under: its name in lowercase. *)
Definition key (h : heap) (r : ref) : option text :=
  option_map (fun p => lower (Product.name p)) (nth_error h r).

(** No two products of the store have the same name up to case. *)
Definition unique_names (h : heap) (products : list ref) : Prop :=
  NoDup (map (key h) products).

(** What [__post_init__] accepts. *)
Definition valid (p : Product.t float) : Prop :=
  negative (Product.price p) = false /\ (0 <= Product.stock p)%Z.

(** The units on the shelves and the units in the cart. *)
Definition total_stock (h : heap) : Z :=
  fold_right (fun p acc => (Product.stock p + acc)%Z) 0%Z h.

Definition total_quantity (items : list CartItem.t) : Z :=
  fold_right (fun it acc => (CartItem.quantity it + acc)%Z) 0%Z items.

(** The stock of one product, and the units of it in the cart. *)
Definition stock_of (h : heap) (r : ref) : Z :=
  match nth_error h r with
  | Some p => Product.stock p
  | None => 0%Z
  end.

Definition in_cart (items : list CartItem.t) (r : ref) : Z :=
  total_quantity (filter (fun it => (CartItem.product it =? r)%nat) items).

(** The products of a list numbered from [idx] on. *)
Fixpoint number_from (idx : Z) (plist : list (Product.t float))
  : list (Z * Product.t float) :=
  match plist with
  | [] => []
  | p :: rest => (idx, p) :: number_from (idx + 1) rest
  end.

(** Every numbered product of a listing with the heading it stands
    under ([current] before the first heading). *)
Fixpoint under_headings (current : option text) (ls : list line)
  : list (option text * (Z * Product.t float)) :=
  match ls with
  | [] => []
  | Text _ :: ls' => under_headings current ls'
  | Heading cat :: ls' => under_headings (Some cat) ls'
  | Numbered idx p :: ls' => (current, (idx, p)) :: under_headings current ls'
  end.

(** Names as the constructor leaves them: stripped. *)
Definition names_stripped (h : heap) : Prop :=
  Forall (fun p => strip (Product.name p) = Product.name p) h.

(** No product is out of stock by more than it has, and every item of
    the cart counts at least one unit. *)
Definition stocks_nonnegative (h : heap) : Prop :=
  Forall (fun p => (0 <= Product.stock p)%Z) h.

Definition quantities_positive (items : list CartItem.t) : Prop :=
  Forall (fun it => (0 < CartItem.quantity it)%Z) items.

(** The cart holds products of the store. *)
Definition cart_of_store (products : list ref) (items : list CartItem.t)
  : Prop :=
  Forall (fun it => In (CartItem.product it) products) items.

(** The numbered products of a listing, and its headings. *)
Definition numbered (ls : list line) : list (Z * Product.t float) :=
  flat_map (fun l => match l with
                     | Numbered idx p => [(idx, p)]
                     | _ => []
                     end) ls.

Definition headings (ls : list line) : list text :=
  flat_map (fun l => match l with
                     | Heading cat => [cat]
                     | _ => []
                     end) ls.

End Model.

(** *** A small inventory, with prices in whole units *)

Definition below_zero (x : Z) : bool := (x <? 0)%Z.

Definition shelf : list (Product.t Z) :=
  [Product.mk Z (str "Apple") 3%Z 10%Z (str "Fruit");
   Product.mk Z (str "Pen") 2%Z 5%Z (str "General")].

Definition shelf_refs : list nat := [0%nat; 1%nat].

End MiniStore.

(** ** Notions the properties are stated with *)

(** A verdict applied to a state: the penalty when the check failed. *)
Definition apply_verdict (v : bool * string) (st : State) : State :=
  if fst v then penalize (snd v) st else st.

(** The running invariant. *)
Definition balanced (st : State) : Prop :=
  score st = (top_score - Z.of_nat (List.length (failed_parameters st)))%Z.

(** A check fails when it charges its reason, in whatever state it runs;
    it passes when it leaves every state alone. *)
Definition fails_with (check : State -> State) (reason : string) : Prop :=
  forall st, check st = penalize reason st.

Definition passes (check : State -> State) : Prop :=
  forall st, check st = st.

(** Text of ASCII characters only. *)
Definition ascii_text (s : text) : Prop := forall c, In c s -> is_ascii c = true.

(** Character classes, as the specification words them. *)
Definition lowercase (c : codepoint) : Prop := ord "a" <= c <= ord "z".
Definition uppercase (c : codepoint) : Prop := ord "A" <= c <= ord "Z".
Definition ascii_letter (c : codepoint) : Prop := lowercase c \/ uppercase c.
Definition digit (c : codepoint) : Prop := ord "0" <= c <= ord "9".
Definition special_char (c : codepoint) : Prop :=
  c = ord "!" \/ c = ord "@" \/ c = ord "$" \/ c = ord "?".

(** The text has a character of the class. *)
Definition has (P : codepoint -> Prop) (s : text) : Prop :=
  exists c, In c s /\ P c.

(** The password has an ASCII letter and its ASCII letters are all of
    one case. *)
Definition single_case (password : text) : Prop :=
  has ascii_letter password
  /\ ((forall c, In c password -> ascii_letter c -> lowercase c)
      \/ (forall c, In c password -> ascii_letter c -> uppercase c)).

Definition symbol (c : codepoint) : Prop :=
  c = ord "@" \/ c = ord "$" \/ c = ord "!" \/ c = ord "0".

(** The substitution of check 6, character by character: [@] is a,
    [$] is s, [0] is o, and [!] is [bang]. *)
Definition unleet (bang : codepoint) (c : codepoint) : codepoint :=
  if c =? ord "@" then ord "a"
  else if c =? ord "$" then ord "s"
  else if c =? ord "0" then ord "o"
  else if c =? ord "!" then bang
  else c.

Definition disguised `{Unicode} (username password : text) : Prop :=
  has symbol password
  /\ (map (unleet (ord "i")) (lower password) = lower username
      \/ map (unleet (ord "l")) (lower password) = lower username).

(** The denylist, as the specification lists it. *)
Definition denylist : list text :=
  [str "123456"; str "12345678"; str "123456789"; str "12345";
   str "111111"; str "qwerty"; str "asdfgh"; str "zxcvbnm";
   str "password"; str "admin"].

(** [@] is a, [$] is s, [0] is o; every other character is kept. *)
Definition unleet_pw (c : codepoint) : codepoint :=
  if c =? ord "@" then ord "a"
  else if c =? ord "$" then ord "s"
  else if c =? ord "0" then ord "o"
  else c.

(** The lowercased password, substituted and with every character that
    is not alphanumeric removed, reads "password". *)
Definition password_like `{Unicode} (password : text) : Prop :=
  filter isalnum (map unleet_pw (lower password)) = str "password".

(** The text neither starts nor ends with a character of the class. *)
Definition trimmed (sp : codepoint -> bool) (s : text) : Prop :=
  (forall c, hd_error s = Some c -> sp c = false)
  /\ (forall c, hd_error (rev s) = Some c -> sp c = false).

(** * Properties *)

(** ** Basic facts about the text operations *)

Lemma text_eqb_eq (a b : text) : text_eqb a b = true <-> a = b.
Proof.
  unfold text_eqb; destruct (list_eq_dec N.eq_dec a b); split;
    intros; congruence.
Qed.

Lemma text_eqb_neq (a b : text) : text_eqb a b = false <-> a <> b.
Proof.
  unfold text_eqb; destruct (list_eq_dec N.eq_dec a b); split;
    intros; congruence.
Qed.

Lemma contains_In (chars : list codepoint) (c : codepoint) :
  contains chars c = true <-> In c chars.
Proof.
  induction chars as [|x chars IH]; simpl.
  - split; [discriminate | tauto].
  - destruct (N.eqb_spec c x) as [->|Hne].
    + split; auto.
    + rewrite IH; split; [auto | intros [E|HIn]; [congruence | exact HIn]].
Qed.

(** A scan with [break] answers whether some character passes the test. *)
Lemma scan_until_spec (test : codepoint -> bool) (s : text) :
  scan_until test s = true <-> exists c, In c s /\ test c = true.
Proof.
  induction s as [|x s IH]; simpl.
  - split; [discriminate | intros (c & [] & _)].
  - destruct (test x) eqn:Hx.
    + split; [intros _; exists x; auto | reflexivity].
    + rewrite IH; split.
      * intros (c & HIn & Hc); exists c; auto.
      * intros (c & [->|HIn] & Hc); [congruence | exists c; auto].
Qed.

Lemma scan_until_existsb (test : codepoint -> bool) (s : text) :
  scan_until test s = existsb test s.
Proof.
  induction s as [|x s IH]; simpl; [reflexivity|].
  rewrite IH; destruct (test x); reflexivity.
Qed.

(** ** The state after the checks *)

Lemma common_checker_verdict `{Unicode} (password : text) (st : State) :
  common_checker password st
  = apply_verdict (common_fails password, reason_common) st.
Proof.
  unfold common_checker, common_fails, apply_verdict; cbn [fst snd].
  destruct (in_set (lower password) common_pw); cbn [orb]; [reflexivity|].
  destruct (text_eqb (pw_norm_alnum password) (str "password"));
    reflexivity.
Qed.

(** Every checker is its verdict applied to the state. *)
Lemma checkers_verdicts `{Unicode} (username password : text) (st : State) :
  map (fun c => c st) (checkers username password)
  = map (fun v => apply_verdict v st) (verdicts username password).
Proof.
  unfold checkers, verdicts; cbn [map].
  rewrite common_checker_verdict; reflexivity.
Qed.

Lemma evaluate_fold `{Unicode} (username password : text) :
  evaluate username password
  = fold_left (fun st v => apply_verdict v st)
              (verdicts username password) initial.
Proof.
  unfold evaluate, verdicts; cbn [fold_left].
  rewrite common_checker_verdict; reflexivity.
Qed.

Lemma fold_verdicts_score (vs : list (bool * string)) (st : State) :
  score (fold_left (fun st v => apply_verdict v st) vs st)
  = (score st - Z.of_nat (failed_count vs))%Z.
Proof.
  revert st; induction vs as [|[b r] vs IH]; intros st; simpl.
  - unfold failed_count; simpl; lia.
  - rewrite IH; unfold failed_count, apply_verdict; simpl.
    destruct b; simpl; lia.
Qed.

Lemma fold_verdicts_reasons (vs : list (bool * string)) (st : State) :
  failed_parameters (fold_left (fun st v => apply_verdict v st) vs st)
  = failed_parameters st ++ failed_reasons vs.
Proof.
  revert st; induction vs as [|[b r] vs IH]; intros st; simpl.
  - unfold failed_reasons; simpl; now rewrite app_nil_r.
  - rewrite IH; unfold failed_reasons, apply_verdict; simpl.
    destruct b; simpl; [now rewrite <- app_assoc | reflexivity].
Qed.

Lemma failed_count_le (vs : list (bool * string)) :
  (failed_count vs <= List.length vs)%nat.
Proof. unfold failed_count; apply filter_length_le. Qed.

Lemma failed_reasons_length (vs : list (bool * string)) :
  List.length (failed_reasons vs) = failed_count vs.
Proof. unfold failed_reasons, failed_count; apply length_map. Qed.

Lemma apply_verdict_balanced (v : bool * string) (st : State) :
  balanced st -> balanced (apply_verdict v st).
Proof.
  unfold balanced, apply_verdict, penalize; destruct (fst v);
    cbn [score failed_parameters]; [|auto].
  intros ->; rewrite length_app; cbn [List.length]; lia.
Qed.

Lemma states_after_balanced `{Unicode} (username password : text) :
  Forall balanced (states_after (checkers username password) initial).
Proof.
  assert (H0 : balanced initial) by reflexivity.
  assert (Hc : Forall (fun c => forall st, balanced st -> balanced (c st))
                      (checkers username password)).
  { rewrite Forall_forall; intros c HIn st Hst.
    pose proof (checkers_verdicts username password st) as E.
    apply (in_map (fun c => c st)) in HIn; rewrite E in HIn.
    apply in_map_iff in HIn; destruct HIn as (v & <- & _).
    now apply apply_verdict_balanced. }
  revert Hc H0; generalize initial; generalize (checkers username password).
  induction l as [|c cs IH]; intros st Hc Hst; simpl; constructor.
  - inversion Hc; subst; auto.
  - inversion Hc; subst; apply IH; auto.
Qed.

Lemma states_after_last `{Unicode} (username password : text) :
  last (states_after (checkers username password) initial) initial
  = evaluate username password.
Proof. reflexivity. Qed.

(** ** Score, failures and level *)

(** C1. For every username and password the final score lies between 0
    and 7, is 7 minus the number of failed checks, and the list of
    failure reasons has length 7 - score (it is the reasons of the failed
    checks, in order).  The states after each of the seven checks all
    satisfy score = 7 - length(failures), the last of them is the final
    state, and every check either leaves the state as it is or takes
    exactly 1 from the score and appends exactly its one reason. *)
Theorem score_invariant `{Unicode} (username password : text) :
  let st := evaluate username password in
  let vs := verdicts username password in
  let trace := states_after (checkers username password) initial in
  (0 <= score st <= 7)%Z
  /\ score st = (7 - Z.of_nat (failed_count vs))%Z
  /\ Z.of_nat (List.length (failed_parameters st)) = (7 - score st)%Z
  /\ failed_parameters st = failed_reasons vs
  /\ List.length trace = 7%nat
  /\ last trace initial = st
  /\ Forall (fun s =>
       score s = (7 - Z.of_nat (List.length (failed_parameters s)))%Z)
       trace
  /\ Forall2 (fun (check : State -> State) (v : bool * string) => forall s,
       check s = if fst v
                 then mkState (score s - 1) (failed_parameters s ++ [snd v])
                 else s)
       (checkers username password) vs.
Proof.
  intros st vs trace.
  assert (Hs : score st = (7 - Z.of_nat (failed_count vs))%Z).
  { unfold st; rewrite evaluate_fold, fold_verdicts_score; reflexivity. }
  assert (Hr : failed_parameters st = failed_reasons vs).
  { unfold st; rewrite evaluate_fold, fold_verdicts_reasons; reflexivity. }
  assert (Hle : (failed_count vs <= 7)%nat).
  { exact (failed_count_le vs). }
  refine (conj _ (conj Hs (conj _ (conj Hr (conj _ (conj _ (conj _ _))))))).
  - lia.
  - rewrite Hr, failed_reasons_length; lia.
  - reflexivity.
  - apply states_after_last.
  - apply states_after_balanced.
  - unfold checkers, vs, verdicts.
    repeat constructor; intros s; try reflexivity.
    apply common_checker_verdict.
Qed.

(** C2. The level is a function of the final score alone: 5 or more is
    Strong, from 3 up to but excluding 5 is Medium, below 3 is Weak; a
    score of exactly 3 is Medium, not Weak.  The level the script prints
    is this function of the score of the final state. *)
Theorem level_thresholds (s : Z) :
  ((5 <= s)%Z -> level_of s = "Strong"%string)
  /\ ((3 <= s < 5)%Z -> level_of s = "Medium"%string)
  /\ ((s < 3)%Z -> level_of s = "Weak"%string)
  /\ level_of 3 = "Medium"%string
  /\ level_of 3 <> "Weak"%string
  /\ (forall st, score st = s ->
        nth_error (report st) 2 = Some ("Level: " ++ level_of s)%string).
Proof.
  unfold level_of; repeat split.
  - intros Hs; destruct (Z.geb_spec s 5); [reflexivity | lia].
  - intros Hs; destruct (Z.geb_spec s 5); [lia|].
    destruct (Z.geb_spec s 3); [reflexivity | lia].
  - intros Hs; destruct (Z.geb_spec s 5); [lia|].
    destruct (Z.geb_spec s 3); [lia | reflexivity].
  - discriminate.
  - intros st <-; reflexivity.
Qed.

Lemma level_thresholds_witness :
  level_of 6 = "Strong"%string
  /\ level_of 4 = "Medium"%string
  /\ level_of 0 = "Weak"%string.
Proof.
  split; [|split].
  - apply (proj1 (level_thresholds 6)); lia.
  - apply (proj1 (proj2 (level_thresholds 4))); lia.
  - apply (proj1 (proj2 (proj2 (level_thresholds 0)))); lia.
Defined.

(** ** ASCII input: the runtime's tables do not matter *)

Lemma ascii_text_forallb (s : text) :
  ascii_text s <-> forallb is_ascii s = true.
Proof. unfold ascii_text; now rewrite forallb_forall. Qed.

Lemma ascii_lower_ascii (c : codepoint) :
  is_ascii c = true -> is_ascii (ascii_lower c) = true.
Proof.
  unfold ascii_lower, is_upper, is_ascii, ord; simpl N_of_ascii.
  intros Hc; destruct (_ && _) eqn:E; [|exact Hc].
  apply andb_true_iff in E; destruct E as [_ E].
  apply N.leb_le in E; apply N.ltb_lt; lia.
Qed.

Lemma table_get_In (t : table) (c v : codepoint) :
  table_get t c = Some v -> In (c, v) t.
Proof.
  induction t as [|[k w] t IH]; simpl; [discriminate|].
  destruct (N.eqb_spec k c) as [->|_].
  - intros [= ->]; auto.
  - auto.
Qed.

Lemma translate_ascii (t : table) (s : text) :
  (forall k v, In (k, v) t -> is_ascii v = true) ->
  ascii_text s -> ascii_text (translate t s).
Proof.
  intros Ht Hs c HIn; unfold translate in HIn.
  apply in_map_iff in HIn; destruct HIn as (x & <- & Hx).
  destruct (table_get t x) as [v|] eqn:E.
  - apply table_get_In in E; eauto.
  - auto.
Qed.

Lemma lower_on_ascii `{Unicode} (s : text) :
  ascii_text s -> lower s = map ascii_lower s /\ ascii_text (lower s).
Proof.
  intros Hs; assert (E : lower s = map ascii_lower s).
  { apply lower_ascii, ascii_text_forallb, Hs. }
  split; [exact E|].
  rewrite E; intros c HIn; apply in_map_iff in HIn.
  destruct HIn as (x & <- & Hx); apply ascii_lower_ascii; auto.
Qed.

Lemma lstrip_by_ext (sp sp' : codepoint -> bool) (s : text) :
  (forall c, In c s -> sp c = sp' c) -> lstrip_by sp s = lstrip_by sp' s.
Proof.
  induction s as [|x s IH]; intros Hs; simpl; [reflexivity|].
  rewrite <- (Hs x (or_introl eq_refl)).
  destruct (sp x); [apply IH; intros; apply Hs; now right | reflexivity].
Qed.

Lemma lstrip_by_In (sp : codepoint -> bool) (s : text) (c : codepoint) :
  In c (lstrip_by sp s) -> In c s.
Proof.
  induction s as [|x s IH]; simpl; [tauto|].
  destruct (sp x); [auto | simpl; tauto].
Qed.

Lemma rstrip_by_In (sp : codepoint -> bool) (s : text) (c : codepoint) :
  In c (rstrip_by sp s) -> In c s.
Proof.
  unfold rstrip_by; rewrite <- in_rev; intros HIn.
  apply lstrip_by_In in HIn; now rewrite <- in_rev in HIn.
Qed.

Lemma strip_In `{Unicode} (s : text) (c : codepoint) :
  In c (strip s) -> In c s.
Proof.
  unfold strip, strip_by; intros HIn.
  apply rstrip_by_In, lstrip_by_In in HIn; auto.
Qed.

Lemma strip_on_ascii (U : Unicode) (s : text) :
  ascii_text s -> @strip U s = @strip ascii_only s.
Proof.
  intros Hs.
  assert (Hsp : forall c, In c s -> @isspace U c = @isspace ascii_only c).
  { intros c HIn; simpl; rewrite (Hs c HIn); apply isspace_ascii; auto. }
  unfold strip, strip_by, rstrip_by.
  rewrite (lstrip_by_ext _ _ s Hsp); f_equal.
  apply lstrip_by_ext; intros c HIn.
  rewrite <- in_rev in HIn; apply lstrip_by_In in HIn; auto.
Qed.

Lemma pw_norm_alnum_on_ascii (U : Unicode) (password : text) :
  ascii_text password ->
  @pw_norm_alnum U password = @pw_norm_alnum ascii_only password.
Proof.
  intros Hp; destruct (@lower_on_ascii U password Hp) as [Elp Hlp].
  unfold pw_norm_alnum; rewrite Elp; simpl lower.
  apply filter_ext_in; intros c HIn.
  assert (Hc : is_ascii c = true).
  { revert c HIn; apply translate_ascii.
    - intros k v Hkv; simpl in Hkv.
      repeat (destruct Hkv as [[= <- <-]|Hkv]; [reflexivity|]); tauto.
    - rewrite <- Elp; exact Hlp. }
  simpl; rewrite Hc; apply isalnum_ascii; exact Hc.
Qed.

Lemma common_fails_on_ascii (U : Unicode) (password : text) :
  ascii_text password ->
  @common_fails U password = @common_fails ascii_only password.
Proof.
  intros Hp; unfold common_fails.
  rewrite (pw_norm_alnum_on_ascii U password Hp).
  destruct (@lower_on_ascii U password Hp) as [-> _]; reflexivity.
Qed.

Lemma evaluate_on_ascii (U : Unicode) (username password : text) :
  ascii_text username -> ascii_text password ->
  @evaluate U username password = @evaluate ascii_only username password.
Proof.
  intros Hu Hp.
  destruct (@lower_on_ascii U username Hu) as [Elu _].
  destruct (@lower_on_ascii U password Hp) as [Elp _].
  assert (Esw : @swapcase U username = map ascii_swapcase username).
  { apply swapcase_ascii, ascii_text_forallb, Hu. }
  unfold evaluate.
  unfold swapcase_checker, swapcase_fails, symbols_checker, symbols_fails,
    common_checker, p_norm_i, p_norm_l.
  rewrite Elu, Elp, Esw, (pw_norm_alnum_on_ascii U password Hp).
  reflexivity.
Qed.

(** On ASCII input every runtime prints what the ASCII-only one does. *)
Lemma main_on_ascii (U : Unicode) (raw_username raw_password : text) :
  ascii_text raw_username -> ascii_text raw_password ->
  @main U raw_username raw_password
  = @main ascii_only raw_username raw_password.
Proof.
  intros Hu Hp; unfold main.
  rewrite (strip_on_ascii U _ Hu), (strip_on_ascii U _ Hp).
  rewrite evaluate_on_ascii; [reflexivity | |];
    intros c HIn; apply strip_In in HIn; auto.
Qed.

(** ** What it means for one check to fail *)

Lemma penalize_changes (reason : string) (st : State) :
  penalize reason st <> st.
Proof.
  intros E; apply (f_equal score) in E; unfold penalize in E; simpl in E.
  lia.
Qed.

Lemma fails_not_passes (check : State -> State) (reason : string) :
  fails_with check reason -> passes check -> False.
Proof.
  intros Hf Hp; apply (penalize_changes reason initial).
  now rewrite <- Hf, Hp.
Qed.

(** A check that applies a verdict fails exactly when the verdict is
    true and passes exactly when it is false. *)
Lemma verdict_decides (check : State -> State) (b : bool) (reason : string) :
  (forall st, check st = apply_verdict (b, reason) st) ->
  (b = true <-> fails_with check reason) /\ (b = false <-> passes check).
Proof.
  intros Hc; unfold fails_with, passes; split; split.
  - intros -> st; apply Hc.
  - intros Hf; destruct b; [reflexivity|].
    exfalso; apply (penalize_changes reason initial).
    now rewrite <- Hf, Hc.
  - intros -> st; apply Hc.
  - intros Hp; destruct b; [|reflexivity].
    exfalso; apply (penalize_changes reason initial).
    transitivity (check initial); [symmetry; apply Hc | apply Hp].
Qed.

(** ** Scenario A: username alice, password alice123 *)

Lemma alice_state (U : Unicode) :
  @evaluate U (str "alice") (str "alice123")
  = mkState 4 [reason_length; reason_combo; reason_case].
Proof.
  rewrite evaluate_on_ascii.
  - vm_compute; reflexivity.
  - apply ascii_text_forallb; vm_compute; reflexivity.
  - apply ascii_text_forallb; vm_compute; reflexivity.
Qed.

Lemma alice_reasons (U : Unicode) :
  failed_reasons (@verdicts U (str "alice") (str "alice123"))
  = [reason_length; reason_combo; reason_case].
Proof.
  pose proof (fold_verdicts_reasons
                (@verdicts U (str "alice") (str "alice123")) initial) as E.
  rewrite <- evaluate_fold, alice_state in E; symmetry; exact E.
Qed.

(** C3, as the code has it.  For username alice and password alice123
    the evaluation fails exactly three checks: length, the
    letter-and-special combination, and case mixing (the password's
    letters are all lowercase).  The final score is 4, the level is
    Medium, and exactly three failure reasons are recorded. *)
Theorem scenario_A_alice `{Unicode} :
  let st := evaluate (str "alice") (str "alice123") in
  failed_reasons (verdicts (str "alice") (str "alice123"))
    = [reason_length; reason_combo; reason_case]
  /\ score st = 4%Z
  /\ level (str "alice") (str "alice123") = "Medium"%string
  /\ failed_parameters st = [reason_length; reason_combo; reason_case]
  /\ List.length (failed_parameters st) = 3%nat
  /\ main (str "alice") (str "alice123")
     = [newline; "Password Strength: 4/7"; "Level: Medium"; "Failed Checks:";
        "- Password must be longer than 8 characters.";
        "- Password Failed: At least one letter and one special character must be present.";
        "- Password cannot be all-lowercase or all-uppercase."]%string.
Proof.
  intros st; unfold st, level; rewrite alice_state, alice_reasons.
  repeat split.
  rewrite main_on_ascii.
  - vm_compute; reflexivity.
  - apply ascii_text_forallb; vm_compute; reflexivity.
  - apply ascii_text_forallb; vm_compute; reflexivity.
Qed.

(** C3 as stated (two failed checks, score 5, level Medium, two reasons)
    holds for no runtime. *)
Lemma claimed_scenario_A_fails :
  ~ exists U : Unicode,
      let st := @evaluate U (str "alice") (str "alice123") in
      failed_reasons (@verdicts U (str "alice") (str "alice123"))
        = [reason_length; reason_combo]
      /\ score st = 5%Z
      /\ level_of (score st) = "Medium"%string
      /\ List.length (failed_parameters st) = 2%nat.
Proof.
  intros (U & _ & Hscore & _).
  rewrite alice_state in Hscore; discriminate Hscore.
Qed.

(** ** The character tests and the classes they decide *)

Lemma is_lower_spec (c : codepoint) : is_lower c = true <-> lowercase c.
Proof.
  unfold is_lower, lowercase; now rewrite andb_true_iff, !N.leb_le.
Qed.

Lemma is_upper_spec (c : codepoint) : is_upper c = true <-> uppercase c.
Proof.
  unfold is_upper, uppercase; now rewrite andb_true_iff, !N.leb_le.
Qed.

Lemma lower_not_upper (c : codepoint) : lowercase c -> uppercase c -> False.
Proof.
  unfold lowercase, uppercase, ord; simpl N_of_ascii; lia.
Qed.

Lemma is_letter_spec (c : codepoint) :
  is_lower c || is_upper c = true <-> ascii_letter c.
Proof.
  unfold ascii_letter; now rewrite orb_true_iff, is_lower_spec, is_upper_spec.
Qed.

Lemma specials_spec (c : codepoint) :
  contains specials c = true <-> special_char c.
Proof.
  rewrite contains_In; unfold specials, special_char; simpl.
  split; intros H; repeat (destruct H as [H|H]; auto); tauto.
Qed.

Lemma special_not_letter (c : codepoint) :
  special_char c -> ascii_letter c -> False.
Proof.
  unfold special_char, ascii_letter, lowercase, uppercase, ord;
    simpl N_of_ascii; lia.
Qed.

Lemma check_letter_spec (password : text) :
  check_letter password = true <-> has ascii_letter password.
Proof.
  unfold check_letter, has; rewrite scan_until_spec.
  split; intros (c & HIn & Hc); exists c; split; auto;
    now apply is_letter_spec.
Qed.

Lemma check_special_spec (password : text) :
  check_special password = true <-> has special_char password.
Proof.
  unfold check_special, has; rewrite scan_until_spec.
  split; intros (c & HIn & Hc); exists c; split; auto;
    now apply specials_spec.
Qed.

(** ** Check 1: length *)

(** C4. The length check fails exactly when the password has at most 8
    characters, and passes exactly when it has 9 or more: a password of
    8 characters fails it, one of 9 passes it, and the empty password
    fails it; the evaluation of the empty password is an ordinary
    result whose first recorded reasons are those of the length check
    and of the letter-and-special check. *)
Theorem check1_length_iff `{Unicode} (password : text) :
  ((len password <= 8)%nat
     <-> fails_with (length_checker password) reason_length)
  /\ ((9 <= len password)%nat <-> passes (length_checker password))
  /\ fails_with (length_checker (str "abcd!FGH")) reason_length
  /\ passes (length_checker (str "abcd!FGHi"))
  /\ fails_with (length_checker []) reason_length
  /\ (forall username, exists rest,
        failed_parameters (evaluate username [])
        = reason_length :: reason_combo :: rest).
Proof.
  assert (Hd := verdict_decides (length_checker password)
                  (length_fails password) reason_length
                  (fun st => eq_refl)).
  destruct Hd as [Hf Hp]; unfold length_fails in Hf, Hp.
  refine (conj _ (conj _ (conj _ (conj _ (conj _ _))))).
  - rewrite <- Hf; symmetry; apply Nat.leb_le.
  - rewrite <- Hp, Nat.leb_gt; reflexivity.
  - intros st; reflexivity.
  - intros st; reflexivity.
  - intros st; reflexivity.
  - intros username; rewrite evaluate_fold, fold_verdicts_reasons.
    unfold failed_reasons, verdicts; cbn [filter fst app initial
      failed_parameters map snd length_fails combo_fails check_letter
      check_special scan_until len List.length Nat.leb andb negb].
    eexists; reflexivity.
Qed.

(** ** Check 2: a letter and a special character *)

Lemma combo_fails_spec (password : text) :
  combo_fails password = true
  <-> ~ (has ascii_letter password /\ has special_char password).
Proof.
  unfold combo_fails.
  rewrite negb_true_iff, <- not_true_iff_false, andb_true_iff.
  now rewrite check_letter_spec, check_special_spec.
Qed.

(** C5. The letter-and-special check fails exactly when the password
    does not have both an ASCII letter and one of the characters
    ! @ $ ?, and passes exactly when it has both.  A password of digits
    and specials only fails it, and so does a password of letters
    only. *)
Theorem check2_combo_iff (password : text) :
  (~ (has ascii_letter password /\ has special_char password)
     <-> fails_with (combo_checker password) reason_combo)
  /\ ((has ascii_letter password /\ has special_char password)
     <-> passes (combo_checker password))
  /\ ((forall c, In c password -> digit c \/ special_char c) ->
      fails_with (combo_checker password) reason_combo)
  /\ ((forall c, In c password -> ascii_letter c) ->
      fails_with (combo_checker password) reason_combo).
Proof.
  assert (Hd := verdict_decides (combo_checker password)
                  (combo_fails password) reason_combo
                  (fun st => eq_refl)).
  destruct Hd as [Hf Hp].
  assert (Hiff := combo_fails_spec password).
  refine (conj _ (conj _ (conj _ _))).
  - now rewrite <- Hf.
  - rewrite <- Hp, <- not_true_iff_false, Hiff.
    split; [tauto|]; intros Hnn.
    destruct (check_letter password) eqn:El;
      destruct (check_special password) eqn:Es;
      try (exfalso; apply Hnn; rewrite <- check_letter_spec,
             <- check_special_spec, El, Es; intros [? ?]; discriminate).
    now rewrite <- check_letter_spec, <- check_special_spec, El, Es.
  - intros Hall; apply Hf, Hiff; intros [(c & HIn & Hc) _].
    destruct (Hall c HIn) as [Hdig|Hsp].
    + revert Hdig Hc; unfold digit, ascii_letter, lowercase, uppercase, ord;
        simpl N_of_ascii; lia.
    + exact (special_not_letter c Hsp Hc).
  - intros Hall; apply Hf, Hiff; intros [_ (c & HIn & Hc)].
    exact (special_not_letter c Hc (Hall c HIn)).
Qed.

Lemma check2_combo_iff_witness :
  fails_with (combo_checker (str "1234!?")) reason_combo
  /\ fails_with (combo_checker (str "abcXYZ")) reason_combo.
Proof.
  split.
  - apply (proj1 (proj2 (proj2 (check2_combo_iff (str "1234!?"))))).
    intros c HIn; simpl in HIn; unfold digit, special_char, ord.
    simpl N_of_ascii.
    repeat (destruct HIn as [<-|HIn]; [lia|]); destruct HIn.
  - apply (proj2 (proj2 (proj2 (check2_combo_iff (str "abcXYZ"))))).
    intros c HIn; simpl in HIn; unfold ascii_letter, lowercase, uppercase, ord.
    simpl N_of_ascii.
    repeat (destruct HIn as [<-|HIn]; [lia|]); destruct HIn.
Defined.

(** ** Check 4: case mixing *)

Lemma case_flags_fold (password : text) (lo up : bool) :
  fold_left case_step password (lo, up)
  = (lo || existsb is_lower password, up || existsb is_upper password).
Proof.
  revert lo up; induction password as [|c s IH]; intros lo up; simpl.
  - now rewrite !orb_false_r.
  - destruct (is_lower c) eqn:El.
    + assert (Eu : is_upper c = false).
      { apply not_true_iff_false; intros Eu.
        apply is_lower_spec in El; apply is_upper_spec in Eu.
        exact (lower_not_upper c El Eu). }
      rewrite IH, Eu; simpl; now rewrite orb_true_r.
    + destruct (is_upper c); rewrite IH; simpl;
        now rewrite ?orb_true_r.
Qed.

Lemma check_lower_spec (password : text) :
  check_lower password = true <-> has lowercase password.
Proof.
  unfold check_lower, case_flags, has; rewrite case_flags_fold; simpl.
  rewrite existsb_exists; split; intros (c & HIn & Hc); exists c;
    split; auto; now apply is_lower_spec.
Qed.

Lemma check_upper_spec (password : text) :
  check_upper password = true <-> has uppercase password.
Proof.
  unfold check_upper, case_flags, has; rewrite case_flags_fold; simpl.
  rewrite existsb_exists; split; intros (c & HIn & Hc); exists c;
    split; auto; now apply is_upper_spec.
Qed.

Lemma case_fails_spec (password : text) :
  case_fails password = true <-> single_case password.
Proof.
  unfold case_fails, single_case.
  rewrite andb_true_iff, orb_true_iff, negb_true_iff.
  rewrite check_lower_spec.
  destruct (check_upper password) eqn:Eu.
  - apply check_upper_spec in Eu; destruct Eu as (u & Hu & Huc).
    destruct (check_lower password) eqn:El.
    + apply check_lower_spec in El; destruct El as (l & Hl & Hlc).
      split; [intros [_ ?]; discriminate|].
      intros [_ [Hall|Hall]]; exfalso.
      * apply (lower_not_upper u); [apply Hall; auto; now right | auto].
      * apply (lower_not_upper l); [auto | apply Hall; auto; now left].
    + split.
      * intros _; split; [exists u; split; auto; now right|].
        right; intros c HIn [Hc|Hc]; [|exact Hc].
        exfalso; apply not_true_iff_false in El; apply El.
        apply check_lower_spec; exists c; auto.
      * intros _; split; [now right | reflexivity].
  - split.
    + intros [[Hlo|Habs] _]; [|discriminate].
      split.
      * destruct Hlo as (c & HIn & Hc); exists c; split; auto; now left.
      * left; intros c HIn [Hc|Hc]; [exact Hc|].
        exfalso; apply not_true_iff_false in Eu; apply Eu.
        apply check_upper_spec; exists c; auto.
    + intros [(c & HIn & [Hc|Hc]) _].
      * split; [left; exists c; auto | apply andb_false_r].
      * exfalso; apply not_true_iff_false in Eu; apply Eu.
        apply check_upper_spec; exists c; auto.
Qed.

(** C6. The case check fails exactly when the password has at least one
    ASCII letter and its ASCII letters are all lowercase or all
    uppercase, and passes otherwise.  A password with no ASCII letter
    passes it, also when it fails other checks: 12345678! fails the
    letter-and-special check and passes this one. *)
Theorem check4_case_iff (password : text) :
  (single_case password
     <-> fails_with (case_checker password) reason_case)
  /\ (~ single_case password <-> passes (case_checker password))
  /\ ((forall c, In c password -> ~ ascii_letter c) ->
      passes (case_checker password))
  /\ (fails_with (combo_checker (str "12345678!")) reason_combo
      /\ passes (case_checker (str "12345678!"))).
Proof.
  assert (Hd := verdict_decides (case_checker password)
                  (case_fails password) reason_case
                  (fun st => eq_refl)).
  destruct Hd as [Hf Hp].
  assert (Hiff := case_fails_spec password).
  assert (Hnone : ~ single_case password <-> passes (case_checker password)).
  { now rewrite <- Hp, <- not_true_iff_false, Hiff. }
  refine (conj _ (conj Hnone (conj _ _))).
  - now rewrite <- Hf.
  - intros Hno; apply Hnone; intros [(c & HIn & Hc) _].
    exact (Hno c HIn Hc).
  - split; intros st; reflexivity.
Qed.

Lemma check4_case_iff_witness : passes (case_checker (str "2024!?")).
Proof.
  apply (proj1 (proj2 (proj2 (check4_case_iff (str "2024!?"))))).
  intros c HIn; simpl in HIn; unfold ascii_letter, lowercase, uppercase, ord.
  simpl N_of_ascii.
  repeat (destruct HIn as [<-|HIn]; [lia|]); destruct HIn.
Defined.

(** ** Checks 3 and 5: the username itself, and its case-swapped form *)

Lemma ascii_swapcase_spec (c : codepoint) :
  (lowercase c -> ascii_swapcase c = c - 32 /\ uppercase (c - 32))
  /\ (uppercase c -> ascii_swapcase c = c + 32 /\ lowercase (c + 32))
  /\ (~ ascii_letter c -> ascii_swapcase c = c).
Proof.
  unfold ascii_swapcase.
  destruct (is_upper c) eqn:Eu; destruct (is_lower c) eqn:El;
    try apply is_upper_spec in Eu; try apply is_lower_spec in El;
    try apply not_true_iff_false in Eu; try apply not_true_iff_false in El;
    try rewrite is_upper_spec in Eu; try rewrite is_lower_spec in El;
    unfold ascii_letter; revert Eu El;
    unfold lowercase, uppercase, ord; simpl N_of_ascii;
    intros Eu El; repeat split; intros; try lia; tauto.
Qed.

Lemma swapcase_fails_spec `{Unicode} (username password : text) :
  swapcase_fails username password = true
  <-> password <> username /\ password = swapcase username.
Proof.
  unfold swapcase_fails.
  now rewrite andb_true_iff, negb_true_iff, text_eqb_neq, text_eqb_eq.
Qed.

Lemma swapcase_fails_on_ascii (U : Unicode) (username password : text) :
  ascii_text username ->
  @swapcase_fails U username password
  = @swapcase_fails ascii_only username password.
Proof.
  intros Hu; unfold swapcase_fails.
  rewrite (swapcase_ascii username); [reflexivity|].
  now apply ascii_text_forallb.
Qed.

(** C7. The swapcase check fails exactly when the password differs from
    the username and equals the username's case-swapped form; for an
    ASCII username that form maps every lowercase letter to its
    uppercase letter, every uppercase letter to its lowercase letter,
    and keeps every other character.  With username Tom the password tOM
    fails it.  The identity check fails exactly when the password is the
    username, so the two checks never both fail. *)
Theorem check5_swapcase_iff `{Unicode} (username password : text) :
  ((password <> username /\ password = swapcase username)
     <-> fails_with (swapcase_checker username password) reason_swapcase)
  /\ (ascii_text username ->
      ((password <> username /\ password = map ascii_swapcase username)
         <-> fails_with (swapcase_checker username password)
                        reason_swapcase))
  /\ fails_with (swapcase_checker (str "Tom") (str "tOM")) reason_swapcase
  /\ (password = username
        <-> fails_with (same_checker username password) reason_same)
  /\ ~ (fails_with (same_checker username password) reason_same
        /\ fails_with (swapcase_checker username password)
                      reason_swapcase).
Proof.
  assert (Hd := verdict_decides (swapcase_checker username password)
                  (swapcase_fails username password) reason_swapcase
                  (fun st => eq_refl)).
  destruct Hd as [Hf _].
  assert (Hs := verdict_decides (same_checker username password)
                  (same_fails username password) reason_same
                  (fun st => eq_refl)).
  destruct Hs as [Hsf _]; unfold same_fails in Hsf.
  rewrite text_eqb_eq in Hsf.
  assert (H5 : (password <> username /\ password = swapcase username)
     <-> fails_with (swapcase_checker username password) reason_swapcase).
  { now rewrite <- Hf, swapcase_fails_spec. }
  refine (conj H5 (conj _ (conj _ (conj Hsf _)))).
  - intros Hu; rewrite <- H5, (swapcase_ascii username); [reflexivity|].
    now apply ascii_text_forallb.
  - intros st; unfold swapcase_checker.
    rewrite swapcase_fails_on_ascii; [reflexivity|].
    apply ascii_text_forallb; vm_compute; reflexivity.
  - intros [H3 H5']; apply Hsf in H3; apply H5 in H5'; tauto.
Qed.

Lemma check5_swapcase_iff_witness :
  fails_with (@swapcase_checker ascii_only (str "Tom") (str "tOM"))
             reason_swapcase.
Proof.
  apply (proj1 (proj2 (@check5_swapcase_iff ascii_only (str "Tom") (str "tOM")))).
  - apply ascii_text_forallb; vm_compute; reflexivity.
  - split; [discriminate | vm_compute; reflexivity].
Defined.

(** ** Check 6: symbols standing for letters *)

Lemma translate_t_i (s : text) : translate t_i s = map (unleet (ord "i")) s.
Proof.
  apply map_ext; intros c; unfold unleet, t_i, table_get.
  rewrite !(N.eqb_sym c).
  destruct (N.eqb_spec (ord "@") c) as [<-|]; [reflexivity|].
  destruct (N.eqb_spec (ord "$") c) as [<-|]; [reflexivity|].
  destruct (N.eqb_spec (ord "!") c) as [<-|]; [reflexivity|].
  destruct (ord "0" =? c); reflexivity.
Qed.

Lemma translate_t_l (s : text) : translate t_l s = map (unleet (ord "l")) s.
Proof.
  apply map_ext; intros c; unfold unleet, t_l, table_get.
  rewrite !(N.eqb_sym c).
  destruct (N.eqb_spec (ord "@") c) as [<-|]; [reflexivity|].
  destruct (N.eqb_spec (ord "$") c) as [<-|]; [reflexivity|].
  destruct (N.eqb_spec (ord "!") c) as [<-|]; [reflexivity|].
  destruct (ord "0" =? c); reflexivity.
Qed.

Lemma used_symbols_spec (password : text) :
  used_symbols password = true <-> has symbol password.
Proof.
  unfold used_symbols, has; rewrite scan_until_spec.
  assert (E : forall c, contains (str "@$!0") c = true <-> symbol c).
  { intros c; rewrite contains_In; unfold symbol; simpl.
    split; intros H; repeat (destruct H as [H|H]; auto); tauto. }
  split; intros (c & HIn & Hc); exists c; split; auto; now apply E.
Qed.

Lemma symbols_fails_spec `{Unicode} (username password : text) :
  symbols_fails username password = true <-> disguised username password.
Proof.
  unfold symbols_fails, disguised, p_norm_i, p_norm_l.
  rewrite andb_true_iff, orb_true_iff, !text_eqb_eq, used_symbols_spec.
  now rewrite translate_t_i, translate_t_l.
Qed.

Lemma symbols_fails_on_ascii (U : Unicode) (username password : text) :
  ascii_text username -> ascii_text password ->
  @symbols_fails U username password
  = @symbols_fails ascii_only username password.
Proof.
  intros Hu Hp; unfold symbols_fails, p_norm_i, p_norm_l.
  destruct (@lower_on_ascii U username Hu) as [-> _].
  destruct (@lower_on_ascii U password Hp) as [-> _].
  reflexivity.
Qed.

(** C8. The symbol check fails exactly when the password has one of the
    characters @ $ ! 0 and one of the two normalized forms of the
    lowercased password (@ to a, $ to s, 0 to o, and ! to i in the one,
    to l in the other) is the lowercased username; it passes otherwise.
    Both forms count: b!ll is caught for username bill through the
    i-form alone, be!l for username bell through the l-form alone. *)
Theorem check6_symbols_iff `{Unicode} (username password : text) :
  (disguised username password
     <-> fails_with (symbols_checker username password) reason_symbols)
  /\ (~ disguised username password
     <-> passes (symbols_checker username password))
  /\ (fails_with (symbols_checker (str "bill") (str "b!ll")) reason_symbols
      /\ map (unleet (ord "l")) (lower (str "b!ll")) <> lower (str "bill"))
  /\ (fails_with (symbols_checker (str "bell") (str "be!l")) reason_symbols
      /\ map (unleet (ord "i")) (lower (str "be!l")) <> lower (str "bell")).
Proof.
  assert (Hd := verdict_decides (symbols_checker username password)
                  (symbols_fails username password) reason_symbols
                  (fun st => eq_refl)).
  destruct Hd as [Hf Hp].
  assert (Hiff := symbols_fails_spec username password).
  assert (Hasc : forall s, forallb is_ascii (str s) = true ->
                           lower (str s) = map ascii_lower (str s)).
  { intros s Hs; apply lower_ascii, Hs. }
  refine (conj _ (conj _ (conj _ _))).
  - now rewrite <- Hf.
  - now rewrite <- Hp, <- not_true_iff_false, Hiff.
  - split.
    + intros st; unfold symbols_checker.
      rewrite symbols_fails_on_ascii; [reflexivity| |];
        apply ascii_text_forallb; vm_compute; reflexivity.
    + rewrite !Hasc by (vm_compute; reflexivity).
      vm_compute; discriminate.
  - split.
    + intros st; unfold symbols_checker.
      rewrite symbols_fails_on_ascii; [reflexivity| |];
        apply ascii_text_forallb; vm_compute; reflexivity.
    + rewrite !Hasc by (vm_compute; reflexivity).
      vm_compute; discriminate.
Qed.

(** ** Check 7: common passwords *)

Lemma translate_t_pw (s : text) : translate t_pw s = map unleet_pw s.
Proof.
  apply map_ext; intros c; unfold unleet_pw, t_pw, table_get.
  rewrite !(N.eqb_sym c).
  destruct (N.eqb_spec (ord "@") c) as [<-|]; [reflexivity|].
  destruct (N.eqb_spec (ord "$") c) as [<-|]; [reflexivity|].
  destruct (ord "0" =? c); reflexivity.
Qed.

Lemma in_set_spec (s : text) (set : list text) :
  in_set s set = true <-> In s set.
Proof.
  unfold in_set; rewrite existsb_exists; split.
  - intros (x & HIn & E); apply text_eqb_eq in E; now subst.
  - intros HIn; exists s; split; [exact HIn | now apply text_eqb_eq].
Qed.

Lemma common_fails_spec `{Unicode} (password : text) :
  common_fails password = true
  <-> In (lower password) denylist
      \/ (~ In (lower password) denylist /\ password_like password).
Proof.
  unfold common_fails, password_like, pw_norm_alnum.
  rewrite orb_true_iff, text_eqb_eq, translate_t_pw.
  change common_pw with denylist.
  destruct (in_set (lower password) denylist) eqn:E.
  - apply in_set_spec in E; split; auto.
  - apply not_true_iff_false in E; rewrite in_set_spec in E.
    split; [intros [?|?]; [discriminate | auto] | intros [?|[_ ?]]; tauto].
Qed.

(** C9. The common-password check fails exactly when the lowercased
    password is in the denylist or, being outside it, reads "password"
    once @ $ 0 are replaced by a s o and every non-alphanumeric
    character is dropped; it passes otherwise.  The two branches exclude
    each other: in any state the check either changes nothing or takes
    exactly 1 from the score and appends exactly one reason.  Admin is
    caught by the denylist, P@$$w0rd! by the normalization. *)
Theorem check7_common_iff `{Unicode} (password : text) :
  ((In (lower password) denylist
    \/ (~ In (lower password) denylist /\ password_like password))
     <-> fails_with (common_checker password) reason_common)
  /\ (~ (In (lower password) denylist \/ password_like password)
     <-> passes (common_checker password))
  /\ (forall st,
        common_checker password st = st
        \/ (score (common_checker password st) = (score st - 1)%Z
            /\ failed_parameters (common_checker password st)
               = failed_parameters st ++ [reason_common]))
  /\ fails_with (common_checker (str "Admin")) reason_common
  /\ (fails_with (common_checker (str "P@$$w0rd!")) reason_common
      /\ ~ In (lower (str "P@$$w0rd!")) denylist).
Proof.
  assert (Hd := verdict_decides (common_checker password)
                  (common_fails password) reason_common
                  (common_checker_verdict password)).
  destruct Hd as [Hf Hp].
  assert (Hiff := common_fails_spec password).
  refine (conj _ (conj _ (conj _ (conj _ _)))).
  - now rewrite <- Hf.
  - rewrite <- Hp, <- not_true_iff_false, Hiff; tauto.
  - intros st; rewrite common_checker_verdict; unfold apply_verdict.
    cbn [fst snd]; destruct (common_fails password); [right | left];
      [split|]; reflexivity.
  - intros st; rewrite common_checker_verdict; unfold apply_verdict.
    cbn [fst snd]; rewrite common_fails_on_ascii; [reflexivity|].
    apply ascii_text_forallb; vm_compute; reflexivity.
  - split.
    + intros st; rewrite common_checker_verdict; unfold apply_verdict.
      cbn [fst snd]; rewrite common_fails_on_ascii; [reflexivity|].
      apply ascii_text_forallb; vm_compute; reflexivity.
    + rewrite lower_ascii by (vm_compute; reflexivity).
      vm_compute; intros HIn.
      repeat (destruct HIn as [HIn|HIn]; [discriminate HIn|]); exact HIn.
Qed.

(** ** Input handling: both inputs are stripped *)

Section Strip.
Variable sp : codepoint -> bool.

Lemma lstrip_by_split (s : text) :
  exists pre, s = pre ++ lstrip_by sp s
              /\ Forall (fun c => sp c = true) pre.
Proof.
  induction s as [|x s (pre & E & Hpre)]; simpl.
  - exists []; split; [reflexivity | constructor].
  - destruct (sp x) eqn:Hx.
    + exists (x :: pre); split; [simpl; now f_equal | now constructor].
    + exists []; split; [reflexivity | constructor].
Qed.

Lemma lstrip_by_head (s : text) (c : codepoint) :
  hd_error (lstrip_by sp s) = Some c -> sp c = false.
Proof.
  induction s as [|x s IH]; simpl; [discriminate|].
  destruct (sp x) eqn:Hx; [exact IH | simpl; intros [= <-]; exact Hx].
Qed.

Lemma lstrip_by_fixed (s : text) :
  (forall c, hd_error s = Some c -> sp c = false) -> lstrip_by sp s = s.
Proof.
  destruct s as [|x s]; simpl; [reflexivity|].
  intros Hx; now rewrite (Hx x eq_refl).
Qed.

Lemma lstrip_by_snoc (l : text) (x : codepoint) :
  sp x = false -> lstrip_by sp (l ++ [x]) = lstrip_by sp l ++ [x].
Proof.
  intros Hx; induction l as [|y l IH]; simpl.
  - now rewrite Hx.
  - destruct (sp y); [exact IH | reflexivity].
Qed.

Lemma rstrip_by_cons (x : codepoint) (t : text) :
  sp x = false -> rstrip_by sp (x :: t) = x :: rstrip_by sp t.
Proof.
  intros Hx; unfold rstrip_by; simpl rev.
  now rewrite lstrip_by_snoc, rev_app_distr.
Qed.

Lemma rstrip_by_split (s : text) :
  exists post, s = rstrip_by sp s ++ post
               /\ Forall (fun c => sp c = true) post.
Proof.
  destruct (lstrip_by_split (rev s)) as (pre & E & Hpre).
  exists (rev pre); split.
  - unfold rstrip_by; rewrite <- rev_app_distr, <- E.
    now rewrite rev_involutive.
  - now apply Forall_rev.
Qed.

Lemma strip_by_trimmed (s : text) : trimmed sp (strip_by sp s).
Proof.
  unfold strip_by, trimmed; split; intros c.
  - destruct (lstrip_by sp s) as [|x t] eqn:E; [discriminate|].
    assert (Hx : sp x = false).
    { apply (lstrip_by_head s); now rewrite E. }
    rewrite (rstrip_by_cons x t Hx); simpl; now intros [= <-].
  - unfold rstrip_by; rewrite rev_involutive; apply lstrip_by_head.
Qed.

Lemma strip_by_fixed (s : text) : trimmed sp s -> strip_by sp s = s.
Proof.
  intros [Hh Hl]; unfold strip_by, rstrip_by.
  rewrite (lstrip_by_fixed s Hh), (lstrip_by_fixed (rev s) Hl).
  apply rev_involutive.
Qed.

Lemma strip_by_idem (s : text) : strip_by sp (strip_by sp s) = strip_by sp s.
Proof. apply strip_by_fixed, strip_by_trimmed. Qed.

Lemma strip_by_split (s : text) :
  exists pre post,
    s = pre ++ strip_by sp s ++ post
    /\ Forall (fun c => sp c = true) pre
    /\ Forall (fun c => sp c = true) post.
Proof.
  destruct (lstrip_by_split s) as (pre & E & Hpre).
  destruct (rstrip_by_split (lstrip_by sp s)) as (post & E' & Hpost).
  exists pre, post; split; [|split]; auto.
  unfold strip_by; now rewrite <- E', <- E.
Qed.

(** One trailing character of the class is stripped off. *)
Lemma strip_by_trailing (p : text) (x : codepoint) :
  trimmed sp p -> sp x = true -> strip_by sp (p ++ [x]) = p.
Proof.
  intros [Hh Hl] Hx; unfold strip_by.
  destruct p as [|y p].
  - simpl; rewrite Hx; reflexivity.
  - rewrite lstrip_by_fixed by (simpl; exact Hh).
    unfold rstrip_by; rewrite rev_app_distr.
    change (rev [x] ++ rev (y :: p)) with (x :: rev (y :: p)).
    change (lstrip_by sp (x :: rev (y :: p)))
      with (if sp x then lstrip_by sp (rev (y :: p))
            else x :: rev (y :: p)).
    rewrite Hx, (lstrip_by_fixed _ Hl); apply rev_involutive.
Qed.
End Strip.

Lemma space_isspace `{Unicode} : isspace (ord " ") = true.
Proof. now rewrite isspace_ascii. Qed.

Lemma report_first_reason (st : State) (reason : string) (rest : list string) :
  failed_parameters st = reason :: rest ->
  nth_error (report st) 4 = Some ("- " ++ reason)%string.
Proof. unfold report; intros ->; reflexivity. Qed.

(** C10. The script evaluates the stripped inputs: what it prints for a
    pair of raw inputs is the report of the evaluation of the stripped
    username and password, and is what it prints for the stripped pair.
    The stripped password is the raw one without a leading and a
    trailing run of whitespace, and has no whitespace at either end.  A
    password of 8 characters with no whitespace at its ends, followed by
    one space, is evaluated as those 8 characters and fails the length
    check. *)
Theorem inputs_stripped `{Unicode} (raw_username raw_password : text) :
  main raw_username raw_password
    = report (evaluate (strip raw_username) (strip raw_password))
  /\ main raw_username raw_password
     = main (strip raw_username) (strip raw_password)
  /\ (exists pre post,
        raw_password = pre ++ strip raw_password ++ post
        /\ Forall (fun c => isspace c = true) pre
        /\ Forall (fun c => isspace c = true) post)
  /\ trimmed isspace (strip raw_password)
  /\ (forall p,
        len p = 8%nat -> trimmed isspace p ->
        raw_password = p ++ [ord " "] ->
        strip raw_password = p
        /\ main raw_username raw_password = main raw_username p
        /\ nth_error (main raw_username raw_password) 4
           = Some ("- " ++ reason_length)%string).
Proof.
  unfold strip.
  refine (conj eq_refl (conj _ (conj _ (conj _ _)))).
  - unfold main, strip; now rewrite !strip_by_idem.
  - apply strip_by_split.
  - apply strip_by_trimmed.
  - intros p Hlen Htrim ->.
    assert (E : strip_by isspace (p ++ [ord " "]) = p).
    { apply strip_by_trailing; [exact Htrim | apply space_isspace]. }
    split; [exact E|]; split.
    + unfold main, strip; now rewrite E, (strip_by_fixed isspace p Htrim).
    + unfold main, strip; rewrite E.
      apply (report_first_reason _ _
               (failed_reasons
                  (tl (verdicts (strip_by isspace raw_username) p)))).
      rewrite evaluate_fold, fold_verdicts_reasons.
      unfold failed_reasons, verdicts, length_fails.
      cbn [filter fst tl]; rewrite Hlen; reflexivity.
Qed.

Lemma inputs_stripped_witness :
  @strip ascii_only (str "abcd!FGH ") = str "abcd!FGH"
  /\ nth_error (@main ascii_only (str "  bob") (str "abcd!FGH ")) 4
     = Some ("- " ++ reason_length)%string.
Proof.
  assert (W := proj2 (proj2 (proj2 (proj2
    (@inputs_stripped ascii_only (str "  bob") (str "abcd!FGH ")))))
    (str "abcd!FGH")).
  assert (H8 : len (str "abcd!FGH") = 8%nat) by reflexivity.
  assert (Ht : trimmed (@isspace ascii_only) (str "abcd!FGH")).
  { split; intros c; simpl; intros [= <-]; reflexivity. }
  destruct (W H8 Ht eq_refl) as (E & _ & E4).
  split; [exact E | exact E4].
Defined.

(** * Further properties of the password checker *)

(** ** How low the score can go *)

(** X1. The identity check and the swapcase check exclude each other, so
    at most six of the seven checks fail: the score is never below 1. *)
Theorem score_at_least_one `{Unicode} (username password : text) :
  (failed_count (verdicts username password) <= 6)%nat
  /\ (1 <= score (evaluate username password))%Z.
Proof.
  assert (Hc : (failed_count (verdicts username password) <= 6)%nat).
  { unfold verdicts, failed_count, swapcase_fails, same_fails.
    destruct (text_eqb password username); cbn [negb andb];
      destruct (length_fails password), (combo_fails password),
        (case_fails password), (symbols_fails username password),
        (common_fails password);
      cbn [filter fst List.length];
      try destruct (text_eqb password (swapcase username));
      cbn [filter fst List.length]; lia. }
  split; [exact Hc|].
  rewrite evaluate_fold, fold_verdicts_score; cbn [initial score top_score].
  unfold top_score; lia.
Qed.

Lemma map_fixed_In {A : Type} (f : A -> A) (l : list A) (x : A) :
  map f l = l -> In x l -> f x = x.
Proof.
  induction l as [|y l IH]; simpl; [tauto|].
  intros [= Hy Hl] [->|HIn]; auto.
Qed.

Lemma unleet_moves_symbol (bang c : codepoint) :
  symbol c -> bang = ord "i" \/ bang = ord "l" -> unleet bang c <> c.
Proof.
  unfold symbol; intros Hc Hb E.
  destruct Hc as [-> | [-> | [-> | ->]]]; destruct Hb as [-> | ->];
    vm_compute in E; discriminate E.
Qed.

Lemma ascii_lower_symbol (c : codepoint) : symbol c -> ascii_lower c = c.
Proof. intros [-> | [-> | [-> | ->]]]; reflexivity. Qed.

Lemma ascii_lower_swapcase (c : codepoint) :
  ascii_lower (ascii_swapcase c) = ascii_lower c.
Proof.
  unfold ascii_lower, ascii_swapcase.
  destruct (is_upper c) eqn:Eu.
  - apply is_upper_spec in Eu.
    destruct (is_upper (c + 32)) eqn:Eu'; [|reflexivity].
    apply is_upper_spec in Eu'; revert Eu Eu'.
    unfold uppercase, ord; simpl N_of_ascii; lia.
  - destruct (is_lower c) eqn:El; [|now rewrite Eu].
    apply is_lower_spec in El.
    assert (Eu' : is_upper (c - 32) = true).
    { apply is_upper_spec; revert El.
      unfold lowercase, uppercase, ord; simpl N_of_ascii; lia. }
    rewrite Eu'; revert El; unfold lowercase, ord; simpl N_of_ascii; lia.
Qed.

(** A password with a symbol is changed by either normalization. *)
Lemma unleet_changes_lowered (bang : codepoint) (password : text) :
  has symbol password -> bang = ord "i" \/ bang = ord "l" ->
  map (unleet bang) (map ascii_lower password) <> map ascii_lower password.
Proof.
  intros (c & HIn & Hc) Hb E.
  apply (unleet_moves_symbol bang c Hc Hb).
  apply (map_fixed_In _ _ c E).
  rewrite <- (ascii_lower_symbol c Hc); now apply in_map.
Qed.

(** On ASCII input a password caught by the symbol check is neither the
    username nor its case-swapped form. *)
Lemma symbols_excludes_same_and_swapcase `{Unicode}
  (username password : text) :
  ascii_text username -> ascii_text password ->
  symbols_fails username password = true ->
  same_fails username password = false
  /\ swapcase_fails username password = false.
Proof.
  intros Hu Hp Hs; apply symbols_fails_spec in Hs.
  destruct Hs as [Hsym Hnorm]; unfold disguised in Hnorm.
  destruct (lower_on_ascii username Hu) as [Elu _].
  destruct (lower_on_ascii password Hp) as [Elp _].
  rewrite Elu, Elp in Hnorm.
  assert (Hne : map ascii_lower password <> map ascii_lower username).
  { intros E; rewrite <- E in Hnorm; destruct Hnorm as [Hn|Hn];
      revert Hn; apply unleet_changes_lowered; auto. }
  split; apply not_true_iff_false; intros Ht.
  - apply text_eqb_eq in Ht; subst; now apply Hne.
  - apply swapcase_fails_spec in Ht; destruct Ht as [_ Ht].
    rewrite (swapcase_ascii username) in Ht
      by now apply ascii_text_forallb.
    apply Hne; rewrite Ht, map_map; apply map_ext, ascii_lower_swapcase.
Qed.

(** X2. On ASCII input the symbol check never fails together with the
    identity check or the swapcase check, so at most five checks fail
    and the score is at least 2; the level is Weak exactly when the
    score is 2.  The bound is reached: username admin with password
    admin scores 2. *)
Theorem ascii_score_at_least_two `{Unicode} (username password : text) :
  ascii_text username -> ascii_text password ->
  (symbols_fails username password = true ->
     same_fails username password = false
     /\ swapcase_fails username password = false)
  /\ (2 <= score (evaluate username password))%Z
  /\ (level username password = "Weak"%string
      <-> score (evaluate username password) = 2%Z)
  /\ score (evaluate (str "admin") (str "admin")) = 2%Z.
Proof.
  intros Hu Hp.
  assert (Hex := symbols_excludes_same_and_swapcase username password Hu Hp).
  assert (Hc : (failed_count (verdicts username password) <= 5)%nat).
  { revert Hex; unfold verdicts, failed_count, swapcase_fails, same_fails.
    destruct (symbols_fails username password); intros Hex.
    - destruct (Hex eq_refl) as [-> ->].
      destruct (length_fails password), (combo_fails password),
        (case_fails password), (common_fails password);
        cbn [filter fst List.length]; lia.
    - clear Hex; destruct (text_eqb password username); cbn [negb andb];
        destruct (length_fails password), (combo_fails password),
          (case_fails password), (common_fails password);
        cbn [filter fst List.length];
        try destruct (text_eqb password (swapcase username));
        cbn [filter fst List.length]; lia. }
  assert (Hs : (2 <= score (evaluate username password))%Z).
  { rewrite evaluate_fold, fold_verdicts_score; cbn [initial score].
    unfold top_score; lia. }
  refine (conj Hex (conj Hs (conj _ _))).
  - unfold level, level_of.
    destruct (Z.geb_spec (score (evaluate username password)) 5);
      [split; [discriminate | lia]|].
    destruct (Z.geb_spec (score (evaluate username password)) 3);
      [split; [discriminate | lia]|].
    split; [lia | reflexivity].
  - rewrite evaluate_on_ascii.
    + vm_compute; reflexivity.
    + apply ascii_text_forallb; vm_compute; reflexivity.
    + apply ascii_text_forallb; vm_compute; reflexivity.
Qed.

Lemma ascii_score_at_least_two_witness :
  (2 <= score (@evaluate ascii_only (str "Bell") (str "be!l")))%Z
  /\ same_fails (str "Bell") (str "be!l") = false.
Proof.
  assert (Hu : ascii_text (str "Bell")).
  { apply ascii_text_forallb; vm_compute; reflexivity. }
  assert (Hp : ascii_text (str "be!l")).
  { apply ascii_text_forallb; vm_compute; reflexivity. }
  destruct (@ascii_score_at_least_two ascii_only _ _ Hu Hp)
    as (Hex & Hs & _).
  split; [exact Hs | apply Hex; vm_compute; reflexivity].
Defined.

(** ** Blank input *)

Lemma lstrip_by_all (sp : codepoint -> bool) (s : text) :
  Forall (fun c => sp c = true) s -> lstrip_by sp s = [].
Proof.
  induction 1 as [|c s Hc _ IH]; simpl; [reflexivity|].
  now rewrite Hc.
Qed.

Lemma strip_blank `{Unicode} (s : text) :
  Forall (fun c => isspace c = true) s -> strip s = [].
Proof.
  intros Hs; unfold strip, strip_by; now rewrite lstrip_by_all.
Qed.

Lemma evaluate_empty_password `{Unicode} (username : text) :
  ascii_text username ->
  evaluate username []
  = match username with
    | [] => mkState 4 [reason_length; reason_combo; reason_same]
    | _ :: _ => mkState 5 [reason_length; reason_combo]
    end.
Proof.
  intros Hu; rewrite evaluate_on_ascii; [|exact Hu|intros c []].
  destruct username as [|c u]; reflexivity.
Qed.

(** X3. A password of whitespace only (the empty one included) is
    evaluated as the empty password.  With an ASCII username that is not
    blank it fails the length and the letter-and-special checks only
    and is printed as 5/7, Strong; with a blank username it also fails
    the identity check and is printed as 4/7, Medium. *)
Theorem blank_password `{Unicode} (raw_username raw_password : text) :
  Forall (fun c => isspace c = true) raw_password ->
  ascii_text raw_username ->
  strip raw_password = []
  /\ main raw_username raw_password = main raw_username []
  /\ (strip raw_username <> [] ->
      main raw_username raw_password
      = [newline; "Password Strength: 5/7"; "Level: Strong";
         "Failed Checks:";
         "- Password must be longer than 8 characters.";
         "- Password Failed: At least one letter and one special character must be present."]%string)
  /\ (strip raw_username = [] ->
      main raw_username raw_password
      = [newline; "Password Strength: 4/7"; "Level: Medium";
         "Failed Checks:";
         "- Password must be longer than 8 characters.";
         "- Password Failed: At least one letter and one special character must be present.";
         "- Password cannot be the same as username."]%string).
Proof.
  intros Hws Hu.
  assert (E : strip raw_password = []) by now apply strip_blank.
  assert (Hsu : ascii_text (strip raw_username)).
  { intros c HIn; apply Hu; now apply strip_In in HIn. }
  assert (Hm : main raw_username raw_password
               = report (evaluate (strip raw_username) [])).
  { unfold main; now rewrite E. }
  refine (conj E (conj _ (conj _ _))).
  - rewrite Hm; reflexivity.
  - intros Hne; rewrite Hm, (evaluate_empty_password _ Hsu).
    destruct (strip raw_username); [congruence | reflexivity].
  - intros He; rewrite Hm, (evaluate_empty_password _ Hsu), He.
    reflexivity.
Qed.

Lemma blank_password_witness :
  @main ascii_only (str " bob ") (str "   ")
  = [newline; "Password Strength: 5/7"; "Level: Strong";
     "Failed Checks:";
     "- Password must be longer than 8 characters.";
     "- Password Failed: At least one letter and one special character must be present."]%string.
Proof.
  assert (Hws : Forall (fun c => @isspace ascii_only c = true) (str "   ")).
  { repeat constructor. }
  assert (Hu : ascii_text (str " bob ")).
  { apply ascii_text_forallb; vm_compute; reflexivity. }
  destruct (@blank_password ascii_only _ _ Hws Hu) as (_ & _ & Hne & _).
  apply Hne; vm_compute; discriminate.
Defined.

(** ** The perfect score *)

Lemma failed_count_zero `{Unicode} (username password : text) :
  failed_count (verdicts username password) = 0%nat
  <-> length_fails password = false
      /\ combo_fails password = false
      /\ same_fails username password = false
      /\ case_fails password = false
      /\ swapcase_fails username password = false
      /\ symbols_fails username password = false
      /\ common_fails password = false.
Proof.
  unfold verdicts, failed_count.
  destruct (length_fails password), (combo_fails password),
    (same_fails username password), (case_fails password),
    (swapcase_fails username password), (symbols_fails username password),
    (common_fails password); cbn [filter fst List.length];
    split; try discriminate; try tauto;
    intros (? & ? & ? & ? & ? & ? & ?); discriminate.
Qed.

(** X4. The score is 7 exactly when the password has more than 8
    characters, has a lowercase and an uppercase ASCII letter and one of
    ! @ $ ?, is neither the username nor its case-swapped form, is not
    the username in symbol disguise, is outside the denylist and does
    not read "password" after normalization. *)
Theorem perfect_score `{Unicode} (username password : text) :
  score (evaluate username password) = 7%Z
  <-> (9 <= len password)%nat
      /\ has lowercase password
      /\ has uppercase password
      /\ has special_char password
      /\ password <> username
      /\ password <> swapcase username
      /\ ~ disguised username password
      /\ ~ In (lower password) denylist
      /\ ~ password_like password.
Proof.
  rewrite evaluate_fold, fold_verdicts_score; cbn [initial score].
  unfold top_score.
  assert (E0 : (7 - Z.of_nat (failed_count (verdicts username password)) = 7)%Z
               <-> failed_count (verdicts username password) = 0%nat) by lia.
  rewrite E0, failed_count_zero; clear E0.
  unfold length_fails; rewrite Nat.leb_gt.
  rewrite <- !not_true_iff_false.
  rewrite combo_fails_spec, symbols_fails_spec, common_fails_spec,
    swapcase_fails_spec.
  unfold same_fails; rewrite text_eqb_eq.
  assert (Hcase : case_fails password = true
                  <-> (has lowercase password \/ has uppercase password)
                      /\ ~ (has lowercase password /\ has uppercase password)).
  { unfold case_fails.
    rewrite andb_true_iff, orb_true_iff, negb_true_iff,
      <- not_true_iff_false, andb_true_iff.
    now rewrite check_lower_spec, check_upper_spec. }
  rewrite Hcase; clear Hcase.
  assert (Hletter : has ascii_letter password
                    <-> has lowercase password \/ has uppercase password).
  { unfold has, ascii_letter; split.
    - intros (c & HIn & [Hc|Hc]); [left | right]; exists c; auto.
    - intros [(c & HIn & Hc)|(c & HIn & Hc)]; exists c; auto. }
  rewrite Hletter; clear Hletter.
  assert (Dl : has lowercase password \/ ~ has lowercase password).
  { rewrite <- check_lower_spec; destruct (check_lower password); auto. }
  assert (Du : has uppercase password \/ ~ has uppercase password).
  { rewrite <- check_upper_spec; destruct (check_upper password); auto. }
  assert (Ds : has special_char password \/ ~ has special_char password).
  { rewrite <- check_special_spec; destruct (check_special password); auto. }
  assert (De : password = username \/ password <> username).
  { rewrite <- text_eqb_eq; destruct (text_eqb password username); auto. }
  tauto.
Qed.

(** * Properties of the Mini Store *)

Module MiniStoreProps.
Import MiniStore.

(** ** Lists updated in place *)

Lemma modify_length {A : Type} (l : list A) (i : nat) (f : A -> A) :
  List.length (modify l i f) = List.length l.
Proof.
  revert i; induction l as [|x l IH]; intros [|i]; simpl; auto.
Qed.

Lemma modify_nth_same {A : Type} (l : list A) (i : nat) (f : A -> A) :
  nth_error (modify l i f) i = option_map f (nth_error l i).
Proof.
  revert i; induction l as [|x l IH]; intros [|i]; simpl; auto.
Qed.

Lemma modify_nth_other {A : Type} (l : list A) (i j : nat) (f : A -> A) :
  i <> j -> nth_error (modify l i f) j = nth_error l j.
Proof.
  revert i j; induction l as [|x l IH]; intros [|i] [|j] Hne; simpl; auto.
  congruence.
Qed.

Lemma modify_out_of_range {A : Type} (l : list A) (i : nat) (f : A -> A) :
  nth_error l i = None -> modify l i f = l.
Proof.
  revert i; induction l as [|x l IH]; intros [|i]; simpl; auto;
    try discriminate.
  intros Hn; now rewrite IH.
Qed.

Lemma modify_modify {A : Type} (l : list A) (i : nat) (f g : A -> A) :
  modify (modify l i f) i g = modify l i (fun x => g (f x)).
Proof.
  revert i; induction l as [|x l IH]; intros [|i]; simpl; auto.
  now rewrite IH.
Qed.

Lemma modify_id {A : Type} (l : list A) (i : nat) (f : A -> A) :
  (forall x, nth_error l i = Some x -> f x = x) -> modify l i f = l.
Proof.
  revert i; induction l as [|x l IH]; intros [|i] Hf; simpl; auto.
  - now rewrite Hf.
  - now rewrite IH.
Qed.

Lemma find_ext_in {A : Type} (f g : A -> bool) (l : list A) :
  (forall x, In x l -> f x = g x) -> find f l = find g l.
Proof.
  induction l as [|x l IH]; intros Hfg; simpl; [reflexivity|].
  rewrite <- (Hfg x (or_introl eq_refl)).
  destruct (f x); [reflexivity | apply IH; intros; apply Hfg; now right].
Qed.

Lemma find_app {A : Type} (f : A -> bool) (l l' : list A) :
  find f (l ++ l')
  = match find f l with Some x => Some x | None => find f l' end.
Proof.
  induction l as [|x l IH]; simpl; [reflexivity|].
  destruct (f x); auto.
Qed.

Section Props.
Context `{Unicode} {float : Type}.
Variable negative : float -> bool.

(** ** The store: finding and adding products *)

Lemma name_matches_valid (h : heap (float:=float)) (n : text) (r : ref) :
  name_matches h n r = true ->
  exists p, nth_error h r = Some p /\ lower (Product.name p) = n.
Proof.
  unfold name_matches; destruct (nth_error h r) as [p|]; [|discriminate].
  intros E; apply text_eqb_eq in E; exists p; auto.
Qed.

Lemma name_matches_key (h : heap (float:=float)) (n : text) (r : ref) :
  name_matches h n r = true <-> key h r = Some n.
Proof.
  unfold name_matches, key; destruct (nth_error h r) as [p|]; simpl.
  - rewrite text_eqb_eq; split; congruence.
  - split; discriminate.
Qed.

Lemma name_matches_grow (h : heap (float:=float)) (extra : list (Product.t float))
  (n : text) (r : ref) :
  (r < List.length h)%nat ->
  name_matches (h ++ extra) n r = name_matches h n r.
Proof.
  intros Hr; unfold name_matches; now rewrite nth_error_app1.
Qed.

Lemma key_grow (h : heap (float:=float)) (extra : list (Product.t float))
  (r : ref) :
  (r < List.length h)%nat -> key (h ++ extra) r = key h r.
Proof.
  intros Hr; unfold key; now rewrite nth_error_app1.
Qed.

Lemma key_modify (h : heap (float:=float)) (i : ref)
  (f : Product.t float -> Product.t float) (r : ref) :
  (forall p, Product.name (f p) = Product.name p) ->
  key (modify h i f) r = key h r.
Proof.
  intros Hf; unfold key; destruct (Nat.eq_dec i r) as [->|Hne].
  - rewrite modify_nth_same; destruct (nth_error h r); simpl; [|reflexivity].
    now rewrite Hf.
  - now rewrite modify_nth_other.
Qed.

Lemma name_matches_modify (h : heap (float:=float)) (i : ref)
  (f : Product.t float -> Product.t float) (n : text) (r : ref) :
  (forall p, Product.name (f p) = Product.name p) ->
  name_matches (modify h i f) n r = name_matches h n r.
Proof.
  intros Hf; destruct (name_matches h n r) eqn:E.
  - apply name_matches_key; rewrite key_modify by exact Hf.
    now apply name_matches_key.
  - apply not_true_iff_false; intros E'; apply name_matches_key in E'.
    rewrite key_modify in E' by exact Hf.
    apply name_matches_key in E'; congruence.
Qed.

Lemma find_product_spec (h : heap (float:=float)) (products : list ref)
  (name : text) :
  match find_product h products name with
  | Some r => In r products /\ key h r = Some (lower (strip name))
  | None => forall r, In r products -> key h r <> Some (lower (strip name))
  end.
Proof.
  unfold find_product.
  destruct (find _ products) as [r|] eqn:E.
  - apply find_some in E; destruct E as [HIn Hm].
    split; [exact HIn | now apply name_matches_key].
  - intros r HIn Hk; apply name_matches_key in Hk.
    now rewrite (find_none _ _ E r HIn) in Hk.
Qed.

(** X5. Adding a product under a name the store does not have yet, with
    a price that is not negative and a stock of at least 0, appends one
    new product with the stripped name (and category General when none
    is given).  The product is then found under every spelling of the
    name that differs in case or surrounding whitespace only, and every
    other name is found, or not found, as before. *)
Theorem add_new_product (h : heap (float:=float)) (products : list ref)
  (name : text) (price : float) (stock : Z) (category : text) :
  wf_refs h products ->
  find_product h products name = None ->
  negative price = false -> (0 <= stock)%Z ->
  let product := Product.mk float (strip name) price stock
                   (or_else category (str "General")) in
  let r := List.length h in
  add_product negative h products name price stock category
    = Ok (h ++ [product], products ++ [r], r)
  /\ (forall name', lower (strip name') = lower (strip name) ->
        find_product (h ++ [product]) (products ++ [r]) name' = Some r)
  /\ (forall name', lower (strip name') <> lower (strip name) ->
        find_product (h ++ [product]) (products ++ [r]) name'
        = find_product h products name').
Proof.
  intros Hwf Hnone Hprice Hstock product r.
  assert (Hold : forall n,
            find (name_matches (h ++ [product]) n) products
            = find (name_matches h n) products).
  { intros n; apply find_ext_in; intros x HIn.
    apply name_matches_grow.
    unfold wf_refs in Hwf; rewrite Forall_forall in Hwf; auto. }
  assert (Hnew : forall n,
            name_matches (h ++ [product]) n r
            = text_eqb (lower (strip name)) n).
  { intros n; unfold name_matches, r.
    rewrite nth_error_app2, Nat.sub_diag by lia; reflexivity. }
  refine (conj _ (conj _ _)).
  - unfold add_product, new_Product; rewrite Hnone, Hprice.
    destruct (Z.ltb_spec stock 0); [lia | reflexivity].
  - intros name' E; unfold find_product; rewrite find_app, Hold, E.
    unfold find_product in Hnone; rewrite Hnone.
    cbn [find]; rewrite Hnew.
    now rewrite (proj2 (text_eqb_eq _ _) eq_refl).
  - intros name' Hne; unfold find_product; rewrite find_app, Hold.
    destruct (find _ products); [reflexivity|].
    cbn [find]; rewrite Hnew.
    destruct (text_eqb _ _) eqn:E; [|reflexivity].
    apply text_eqb_eq in E; congruence.
Qed.

(** X6. For a name the store does not have yet, a negative price raises
    ValueError with the price message (also when the stock is negative
    too), and a negative stock with an acceptable price raises it with
    the stock message: nothing is added. *)
Theorem add_invalid_product (h : heap (float:=float)) (products : list ref)
  (name : text) (price : float) (stock : Z) (category : text) :
  find_product h products name = None ->
  (negative price = true ->
     add_product negative h products name price stock category
     = ValueError "Price cannot be negative.")
  /\ (negative price = false -> (stock < 0)%Z ->
     add_product negative h products name price stock category
     = ValueError "Stock cannot be negative.").
Proof.
  intros Hnone; unfold add_product, new_Product; rewrite Hnone; split.
  - intros ->; reflexivity.
  - intros -> Hs; destruct (Z.ltb_spec stock 0); [reflexivity | lia].
Qed.

(** X7. Adding under a name the store already has never raises and adds
    no product: the existing product keeps its name, takes the new
    price, has the given stock added to its own, and takes the given
    category unless that is empty.  Nothing is validated on this path:
    the price may be negative and the stock may end below 0.  Every
    other product is left as it is. *)
Theorem add_existing_product (h : heap (float:=float)) (products : list ref)
  (name : text) (price : float) (stock : Z) (category : text) (r : ref) :
  find_product h products name = Some r ->
  exists p h',
    nth_error h r = Some p
    /\ lower (Product.name p) = lower (strip name)
    /\ add_product negative h products name price stock category
       = Ok (h', products, r)
    /\ nth_error h' r
       = Some (Product.mk float (Product.name p) price
                 (Product.stock p + stock)
                 (or_else category (Product.category p)))
    /\ List.length h' = List.length h
    /\ (forall r', r' <> r -> nth_error h' r' = nth_error h r').
Proof.
  intros Hfind.
  pose proof (find_product_spec h products name) as Hspec.
  rewrite Hfind in Hspec; destruct Hspec as [_ Hk].
  apply name_matches_key, name_matches_valid in Hk.
  destruct Hk as (p & Hp & Hn).
  exists p; eexists; split; [exact Hp|]; split; [exact Hn|].
  split; [unfold add_product; rewrite Hfind; reflexivity|].
  split; [rewrite modify_nth_same, Hp; reflexivity|].
  split; [apply modify_length|].
  intros r' Hne; apply modify_nth_other; congruence.
Qed.

(** ** The cart *)

Lemma find_index_some {A : Type} (test : A -> bool) (l : list A) (i : nat) :
  find_index test l = Some i ->
  exists x, nth_error l i = Some x /\ test x = true
            /\ forall j y, (j < i)%nat -> nth_error l j = Some y ->
                           test y = false.
Proof.
  revert i; induction l as [|x l IH]; intros i; simpl; [discriminate|].
  destruct (test x) eqn:Hx.
  - intros [= <-]; exists x; repeat split; auto; intros; lia.
  - destruct (find_index test l) as [k|]; [|discriminate].
    intros [= <-]; destruct (IH k eq_refl) as (y & Hy & Hty & Hbefore).
    exists y; repeat split; auto.
    intros [|j] z Hj; simpl; [intros [= <-]; exact Hx|].
    apply Hbefore; lia.
Qed.

Lemma find_index_none {A : Type} (test : A -> bool) (l : list A) :
  find_index test l = None <-> forall x, In x l -> test x = false.
Proof.
  induction l as [|x l IH]; simpl.
  - split; [intros _ x [] | reflexivity].
  - destruct (test x) eqn:Hx.
    + split; [discriminate|]; intros Hall.
      rewrite (Hall x (or_introl eq_refl)) in Hx; discriminate.
    + destruct (find_index test l) as [k|]; simpl.
      * split; [discriminate|]; intros Hall; exfalso.
        assert (E : Some k = None) by (apply IH; auto).
        discriminate E.
      * split; [|reflexivity]; intros _ y [<-|HIn]; [exact Hx|].
        now apply (proj1 IH).
Qed.

Lemma find_index_app_new {A : Type} (test : A -> bool) (l : list A) (x : A) :
  find_index test l = None -> test x = true ->
  find_index test (l ++ [x]) = Some (List.length l).
Proof.
  induction l as [|y l IH]; simpl; intros Hn Hx.
  - now rewrite Hx.
  - destruct (test y); [discriminate|].
    destruct (find_index test l); [discriminate|].
    now rewrite IH.
Qed.

Lemma find_index_ext_in {A : Type} (f g : A -> bool) (l : list A) :
  (forall x, In x l -> f x = g x) -> find_index f l = find_index g l.
Proof.
  induction l as [|x l IH]; intros Hfg; simpl; [reflexivity|].
  rewrite <- (Hfg x (or_introl eq_refl)), IH; [reflexivity|].
  intros; apply Hfg; now right.
Qed.

Lemma remove_at_app_last {A : Type} (l : list A) (x : A) :
  remove_at (List.length l) (l ++ [x]) = l.
Proof. induction l as [|y l IH]; simpl; [reflexivity | now rewrite IH]. Qed.

Lemma total_stock_modify (h : heap (float:=float)) (a : ref)
  (f : Product.t float -> Product.t float) (p : Product.t float) :
  nth_error h a = Some p ->
  total_stock (modify h a f)
  = (total_stock h + (Product.stock (f p) - Product.stock p))%Z.
Proof.
  revert a; induction h as [|x h IH]; intros [|a]; simpl; try discriminate.
  - intros [= ->]; lia.
  - intros Ha; rewrite (IH a Ha); lia.
Qed.

Lemma total_quantity_modify (items : list CartItem.t) (i : nat)
  (f : CartItem.t -> CartItem.t) (it : CartItem.t) :
  nth_error items i = Some it ->
  total_quantity (modify items i f)
  = (total_quantity items + (CartItem.quantity (f it) - CartItem.quantity it))%Z.
Proof.
  revert i; induction items as [|x items IH]; intros [|i]; simpl;
    try discriminate.
  - intros [= ->]; lia.
  - intros Hi; rewrite (IH i Hi); lia.
Qed.

Lemma total_quantity_app (items items' : list CartItem.t) :
  total_quantity (items ++ items')
  = (total_quantity items + total_quantity items')%Z.
Proof.
  induction items as [|x items IH]; simpl; [reflexivity | rewrite IH; lia].
Qed.

Lemma total_quantity_remove_at (items : list CartItem.t) (i : nat)
  (it : CartItem.t) :
  nth_error items i = Some it ->
  total_quantity (remove_at i items)
  = (total_quantity items - CartItem.quantity it)%Z.
Proof.
  revert i; induction items as [|x items IH]; intros [|i]; simpl;
    try discriminate.
  - intros [= ->]; lia.
  - intros Hi; rewrite (IH i Hi); lia.
Qed.

(** An item found by name holds a live product. *)
Lemma _find_item_some (h : heap (float:=float)) (items : list CartItem.t)
  (product_name : text) (i : nat) :
  _find_item h items product_name = Some i ->
  exists it p,
    nth_error items i = Some it
    /\ nth_error h (CartItem.product it) = Some p
    /\ lower (Product.name p) = lower (strip product_name).
Proof.
  unfold _find_item; intros Hf; apply find_index_some in Hf.
  destruct Hf as (it & Hit & Hm & _).
  apply name_matches_valid in Hm; destruct Hm as (p & Hp & Hn).
  exists it, p; auto.
Qed.

(** X9. [add_to_cart] returns True exactly when the quantity is
    positive and at most the product's stock.  A quantity of 0 or less,
    or one above the stock, changes neither the stock nor the cart and
    prints its message; an accepted quantity is taken off the product's
    stock at once, which therefore stays at or above 0, and no other
    product changes. *)
Theorem add_to_cart_decides (h : heap (float:=float))
  (items : list CartItem.t) (product : ref) (quantity : Z)
  (p : Product.t float) :
  nth_error h product = Some p ->
  exists ok h' items' out,
    add_to_cart h items product quantity = Some (ok, h', items', out)
    /\ (ok = true <-> (0 < quantity <= Product.stock p)%Z)
    /\ ((quantity <= 0)%Z ->
        h' = h /\ items' = items
        /\ out = ["Quantity must be positive."%string])
    /\ ((0 < quantity)%Z -> (Product.stock p < quantity)%Z ->
        h' = h /\ items' = items
        /\ out = ["Not enough stock available."%string])
    /\ ((0 < quantity <= Product.stock p)%Z ->
        out = []
        /\ stock_of h' product = (Product.stock p - quantity)%Z
        /\ (0 <= stock_of h' product)%Z
        /\ (forall r, r <> product -> nth_error h' r = nth_error h r)).
Proof.
  intros Hp; unfold add_to_cart; rewrite Hp.
  destruct (Z.leb_spec quantity 0) as [Hq|Hq].
  { do 4 eexists; split; [reflexivity|].
    repeat split; try discriminate; try lia; intros; lia. }
  destruct (Z.ltb_spec (Product.stock p) quantity) as [Hs|Hs].
  { do 4 eexists; split; [reflexivity|].
    repeat split; try discriminate; try lia; intros; lia. }
  assert (Hst : forall f : Product.t float -> Product.t float,
            stock_of (modify h product f) product = Product.stock (f p)).
  { intros f; unfold stock_of; now rewrite modify_nth_same, Hp. }
  destruct (_find_item _ items (Product.name p)) as [i|];
    (do 4 eexists; split; [reflexivity|]);
    (split; [split; [lia | reflexivity]|]);
    (split; [intros; lia|]); (split; [intros; lia|]);
    intros _; rewrite Hst; cbn [Product.stock];
    (repeat split; [lia|]);
    intros r Hne; apply modify_nth_other; congruence.
Qed.

(** X10. No unit is lost or made: through [add_to_cart], accepted or
    not, and through [remove_from_cart], found or not, the units in
    stock plus the units in the cart stay the same. *)
Theorem cart_conserves_units (h : heap (float:=float))
  (items : list CartItem.t) :
  (forall product quantity ok h' items' out,
     add_to_cart h items product quantity = Some (ok, h', items', out) ->
     (total_stock h' + total_quantity items'
      = total_stock h + total_quantity items)%Z)
  /\ (forall product_name ok h' items',
        remove_from_cart h items product_name = (ok, h', items') ->
        (total_stock h' + total_quantity items'
         = total_stock h + total_quantity items)%Z).
Proof.
  split.
  - intros product quantity ok h' items' out; unfold add_to_cart.
    destruct (nth_error h product) as [p|] eqn:Hp; [|discriminate].
    destruct (quantity <=? 0)%Z; [intros [= <- <- <- <-]; reflexivity|].
    destruct (Product.stock p <? quantity)%Z;
      [intros [= <- <- <- <-]; reflexivity|].
    destruct (_find_item _ items (Product.name p)) as [i|] eqn:Hf.
    + apply _find_item_some in Hf; destruct Hf as (it & _ & Hit & _).
      intros [= <- <- <- <-].
      rewrite (total_stock_modify _ _ _ _ Hp),
        (total_quantity_modify _ _ _ _ Hit); cbn; lia.
    + intros [= <- <- <- <-].
      rewrite (total_stock_modify _ _ _ _ Hp), total_quantity_app; cbn; lia.
  - intros product_name ok h' items'; unfold remove_from_cart.
    destruct (_find_item h items product_name) as [i|] eqn:Hf;
      [|intros [= <- <- <-]; reflexivity].
    apply _find_item_some in Hf; destruct Hf as (it & p & Hit & Hp & _).
    rewrite Hit; intros [= <- <- <-].
    rewrite (total_stock_modify _ _ _ _ Hp),
      (total_quantity_remove_at _ _ _ Hit); cbn; lia.
Qed.

Lemma _find_item_modify (h : heap (float:=float)) (a : ref)
  (f : Product.t float -> Product.t float) (items : list CartItem.t)
  (product_name : text) :
  (forall p, Product.name (f p) = Product.name p) ->
  _find_item (modify h a f) items product_name
  = _find_item h items product_name.
Proof.
  intros Hf; unfold _find_item; apply find_index_ext_in; intros it _.
  now apply name_matches_modify.
Qed.

(** X11. Taking a product into a cart that does not hold it yet and
    removing it again by its name puts back the stock and the cart
    exactly as they were.  (The product's name is stripped, as the
    constructor leaves it.) *)
Theorem add_then_remove_restores (h : heap (float:=float))
  (items : list CartItem.t) (product : ref) (quantity : Z)
  (p : Product.t float) :
  nth_error h product = Some p ->
  (0 < quantity <= Product.stock p)%Z ->
  strip (Product.name p) = Product.name p ->
  _find_item h items (Product.name p) = None ->
  exists h1 items1,
    add_to_cart h items product quantity = Some (true, h1, items1, [])
    /\ stock_of h1 product = (Product.stock p - quantity)%Z
    /\ remove_from_cart h1 items1 (Product.name p) = (true, h, items).
Proof.
  intros Hp Hq Hname Hnone.
  set (down := fun p0 : Product.t float =>
         Product.mk float (Product.name p0) (Product.price p0)
           (Product.stock p0 - quantity) (Product.category p0)).
  assert (Hdown : forall p0, Product.name (down p0) = Product.name p0)
    by reflexivity.
  exists (modify h product down), (items ++ [CartItem.mk product quantity]).
  assert (Hadd : add_to_cart h items product quantity
            = Some (true, modify h product down,
                    items ++ [CartItem.mk product quantity], [])).
  { unfold add_to_cart; rewrite Hp.
    destruct (Z.leb_spec quantity 0); [lia|].
    destruct (Z.ltb_spec (Product.stock p) quantity); [lia|].
    fold down; rewrite (_find_item_modify h product down items _ Hdown).
    now rewrite Hnone. }
  split; [exact Hadd|]; split.
  { unfold stock_of; rewrite modify_nth_same, Hp; reflexivity. }
  unfold remove_from_cart.
  assert (Hfound : _find_item (modify h product down)
                     (items ++ [CartItem.mk product quantity])
                     (Product.name p) = Some (List.length items)).
  { unfold _find_item; apply find_index_app_new.
    - rewrite <- Hnone; unfold _find_item.
      apply find_index_ext_in; intros it _.
      now apply name_matches_modify.
    - cbn [CartItem.product]; apply name_matches_key.
      rewrite key_modify by exact Hdown.
      unfold key; rewrite Hp; simpl; now rewrite Hname. }
  rewrite Hfound, nth_error_app2, Nat.sub_diag by lia.
  cbn [nth_error CartItem.product CartItem.quantity].
  rewrite modify_modify, remove_at_app_last.
  rewrite modify_id; [reflexivity|].
  intros x Hx; rewrite Hp in Hx; injection Hx as <-.
  destruct p as [n pr st c]; unfold down; cbn; f_equal; lia.
Qed.

Lemma Forall_modify {A : Type} (P : A -> Prop) (l : list A) (i : nat)
  (f : A -> A) :
  Forall P l -> (forall x, nth_error l i = Some x -> P x -> P (f x)) ->
  Forall P (modify l i f).
Proof.
  intros Hl; revert i; induction Hl as [|x l Hx Hl IH]; intros [|i] Hf;
    simpl; constructor; auto.
Qed.

Lemma Forall_remove_at {A : Type} (P : A -> Prop) (l : list A) (i : nat) :
  Forall P l -> Forall P (remove_at i l).
Proof.
  intros Hl; revert i; induction Hl as [|x l Hx Hl IH]; intros [|i];
    simpl; auto.
Qed.

(** X12. If no stock is negative and every cart item counts at least one
    unit, that is still so after [add_to_cart], whatever it is asked,
    and after [remove_from_cart]. *)
Theorem cart_keeps_stock_nonnegative (h : heap (float:=float))
  (items : list CartItem.t) :
  stocks_nonnegative h -> quantities_positive items ->
  (forall product quantity ok h' items' out,
     add_to_cart h items product quantity = Some (ok, h', items', out) ->
     stocks_nonnegative h' /\ quantities_positive items')
  /\ (forall product_name ok h' items',
        remove_from_cart h items product_name = (ok, h', items') ->
        stocks_nonnegative h' /\ quantities_positive items').
Proof.
  unfold stocks_nonnegative, quantities_positive; intros Hh Hi; split.
  - intros product quantity ok h' items' out; unfold add_to_cart.
    destruct (nth_error h product) as [p|] eqn:Hp; [|discriminate].
    destruct (Z.leb_spec quantity 0) as [Hq|Hq];
      [intros [= <- <- <- <-]; auto|].
    destruct (Z.ltb_spec (Product.stock p) quantity) as [Hs|Hs];
      [intros [= <- <- <- <-]; auto|].
    assert (Hh' : Forall (fun p0 : Product.t float => (0 <= Product.stock p0)%Z)
              (modify h product (fun p0 =>
                 Product.mk float (Product.name p0) (Product.price p0)
                   (Product.stock p0 - quantity) (Product.category p0)))).
    { apply Forall_modify; [exact Hh|].
      intros x Hx _; rewrite Hp in Hx; injection Hx as <-; cbn; lia. }
    destruct (_find_item _ items (Product.name p)) as [i|];
      intros [= <- <- <- <-]; split; auto.
    + apply Forall_modify; [exact Hi|]; intros x _ Hx; cbn; lia.
    + apply Forall_app; split; [exact Hi|].
      constructor; [cbn; lia | constructor].
  - intros product_name ok h' items'; unfold remove_from_cart.
    destruct (_find_item h items product_name) as [i|];
      [|intros [= <- <- <-]; auto].
    destruct (nth_error items i) as [it|] eqn:Hit;
      [|intros [= <- <- <-]; auto].
    intros [= <- <- <-]; split; [|now apply Forall_remove_at].
    apply Forall_modify; [exact Hh|]; intros x _ Hx; cbn.
    rewrite Forall_forall in Hi.
    pose proof (Hi it (nth_error_In _ _ Hit)); lia.
Qed.

(** ** Units of each product *)

Lemma stock_of_modify (h : heap (float:=float)) (a r : ref)
  (f : Product.t float -> Product.t float) (p : Product.t float) :
  nth_error h a = Some p ->
  stock_of (modify h a f) r
  = if (a =? r)%nat then Product.stock (f p) else stock_of h r.
Proof.
  intros Hp; unfold stock_of; destruct (Nat.eqb_spec a r) as [<-|Hne].
  - now rewrite modify_nth_same, Hp.
  - now rewrite modify_nth_other.
Qed.

Lemma in_cart_app (items items' : list CartItem.t) (r : ref) :
  in_cart (items ++ items') r = (in_cart items r + in_cart items' r)%Z.
Proof. unfold in_cart; now rewrite filter_app, total_quantity_app. Qed.

Lemma in_cart_modify (items : list CartItem.t) (i : nat)
  (f : CartItem.t -> CartItem.t) (it : CartItem.t) (r : ref) :
  nth_error items i = Some it ->
  CartItem.product (f it) = CartItem.product it ->
  in_cart (modify items i f) r
  = (in_cart items r
     + if (CartItem.product it =? r)%nat
       then CartItem.quantity (f it) - CartItem.quantity it
       else 0)%Z.
Proof.
  unfold in_cart; revert i; induction items as [|x items IH]; intros [|i];
    simpl; try discriminate.
  - intros [= ->] ->; destruct (CartItem.product it =? r)%nat; simpl; lia.
  - intros Hi Hf; destruct (CartItem.product x =? r)%nat; simpl;
      rewrite (IH i Hi Hf); lia.
Qed.

Lemma in_cart_remove_at (items : list CartItem.t) (i : nat)
  (it : CartItem.t) (r : ref) :
  nth_error items i = Some it ->
  in_cart (remove_at i items) r
  = (in_cart items r
     - if (CartItem.product it =? r)%nat then CartItem.quantity it else 0)%Z.
Proof.
  unfold in_cart; revert i; induction items as [|x items IH]; intros [|i];
    simpl; try discriminate.
  - intros [= ->]; destruct (CartItem.product it =? r)%nat; simpl; lia.
  - intros Hi; destruct (CartItem.product x =? r)%nat; simpl;
      rewrite (IH i Hi); lia.
Qed.

Lemma NoDup_map_injective {A B : Type} (f : A -> B) (l : list A) (x y : A) :
  NoDup (map f l) -> In x l -> In y l -> f x = f y -> x = y.
Proof.
  induction l as [|z l IH]; simpl; [tauto|].
  intros Hnd; inversion Hnd as [|? ? Hz Hl]; subst.
  intros [->|Hx] [->|Hy] E; auto.
  - exfalso; apply Hz; rewrite E; now apply in_map.
  - exfalso; apply Hz; rewrite <- E; now apply in_map.
Qed.

Lemma names_stripped_modify (h : heap (float:=float)) (a : ref)
  (f : Product.t float -> Product.t float) :
  (forall p, Product.name (f p) = Product.name p) ->
  names_stripped h -> names_stripped (modify h a f).
Proof.
  intros Hf Hh; apply Forall_modify; [exact Hh|].
  intros x _ Hx; now rewrite Hf.
Qed.

Lemma unique_names_modify (h : heap (float:=float)) (products : list ref)
  (a : ref) (f : Product.t float -> Product.t float) :
  (forall p, Product.name (f p) = Product.name p) ->
  unique_names h products -> unique_names (modify h a f) products.
Proof.
  intros Hf Hu; unfold unique_names.
  rewrite (map_ext _ (key h)); [exact Hu|].
  intros r; now apply key_modify.
Qed.

(** What a cart operation has to keep for the next one. *)
Lemma store_and_cart_modify (h : heap (float:=float)) (products : list ref)
  (a : ref) (f : Product.t float -> Product.t float) :
  (forall p, Product.name (f p) = Product.name p) ->
  wf_refs h products /\ unique_names h products /\ names_stripped h ->
  wf_refs (modify h a f) products
  /\ unique_names (modify h a f) products
  /\ names_stripped (modify h a f).
Proof.
  intros Hf (Hwf & Hu & Hn); refine (conj _ (conj _ _)).
  - unfold wf_refs; now rewrite modify_length.
  - now apply unique_names_modify.
  - now apply names_stripped_modify.
Qed.

Lemma unique_names_grow (h : heap (float:=float)) (products : list ref)
  (p : Product.t float) :
  wf_refs h products -> unique_names h products ->
  (forall r, In r products -> key h r <> Some (lower (Product.name p))) ->
  unique_names (h ++ [p]) (products ++ [List.length h]).
Proof.
  unfold wf_refs, unique_names; rewrite Forall_forall; intros Hwf Hu Hfresh.
  rewrite map_app; apply NoDup_app.
  - rewrite (map_ext_in _ (key h)); [exact Hu|].
    intros r HIn; apply key_grow; auto.
  - simpl; constructor; [tauto | constructor].
  - intros k HIn [<-|[]]; apply in_map_iff in HIn.
    destruct HIn as (r & Hk & HIn).
    rewrite key_grow in Hk by auto.
    apply (Hfresh r HIn); rewrite Hk; unfold key.
    rewrite nth_error_app2, Nat.sub_diag by lia; reflexivity.
Qed.

(** X8. A store whose references are all live, whose product names are
    stripped and pairwise different up to case stays so through
    [add_product]: whenever the call returns, no second product with a
    name that is already taken has been created, every earlier product
    is still in the store, and the returned product is in the store. *)
Theorem add_product_keeps_names_unique (h : heap (float:=float))
  (products : list ref) (name : text) (price : float) (stock : Z)
  (category : text) (h' : heap (float:=float)) (products' : list ref)
  (r : ref) :
  wf_refs h products -> unique_names h products -> names_stripped h ->
  add_product negative h products name price stock category
    = Ok (h', products', r) ->
  wf_refs h' products'
  /\ unique_names h' products'
  /\ names_stripped h'
  /\ In r products'
  /\ (forall r0, In r0 products -> In r0 products').
Proof.
  intros Hwf Hu Hn; unfold add_product.
  pose proof (find_product_spec h products name) as Hspec.
  destruct (find_product h products name) as [existing|].
  - destruct Hspec as [HIn _]; intros [= <- <- <-].
    match goal with
    | |- context [modify h existing ?f] =>
        destruct (store_and_cart_modify h products existing f
                    (fun _ => eq_refl) (conj Hwf (conj Hu Hn)))
          as (Hwf' & Hu' & Hn')
    end.
    exact (conj Hwf' (conj Hu' (conj Hn' (conj HIn (fun _ Hr => Hr))))).
  - unfold new_Product; destruct (negative price); [discriminate|].
    destruct (stock <? 0)%Z; [discriminate|].
    intros [= <- <- <-].
    refine (conj _ (conj _ (conj _ (conj _ _)))).
    + unfold wf_refs in *; rewrite Forall_app, length_app; split.
      * eapply Forall_impl; [|exact Hwf]; simpl; intros; lia.
      * constructor; [simpl; lia | constructor].
    + apply unique_names_grow; auto.
    + unfold names_stripped in *; apply Forall_app; split; [exact Hn|].
      constructor; [|constructor]; cbn [Product.name].
      unfold strip; apply strip_by_idem.
    + apply in_or_app; right; now left.
    + intros r0 Hr0; apply in_or_app; now left.
Qed.

(** X13. In a store whose product names are stripped and pairwise
    different up to case, with a cart that holds products of the store:
    adding a product of the store to the cart, and removing an item by
    name, keep for every single product the sum of its stock and of its
    units in the cart; the store and the cart stay as described, so the
    same holds after any number of such steps. *)
Theorem cart_conserves_each_product (h : heap (float:=float))
  (products : list ref) (items : list CartItem.t) :
  wf_refs h products -> unique_names h products -> names_stripped h ->
  cart_of_store products items ->
  (forall product quantity ok h' items' out,
     In product products ->
     add_to_cart h items product quantity = Some (ok, h', items', out) ->
     (forall r, (stock_of h' r + in_cart items' r
                 = stock_of h r + in_cart items r)%Z)
     /\ wf_refs h' products /\ unique_names h' products
     /\ names_stripped h' /\ cart_of_store products items')
  /\ (forall product_name ok h' items',
        remove_from_cart h items product_name = (ok, h', items') ->
        (forall r, (stock_of h' r + in_cart items' r
                    = stock_of h r + in_cart items r)%Z)
        /\ wf_refs h' products /\ unique_names h' products
        /\ names_stripped h' /\ cart_of_store products items').
Proof.
  intros Hwf Hu Hn Hc; split.
  - intros product quantity ok h' items' out Hin; unfold add_to_cart.
    destruct (nth_error h product) as [p|] eqn:Hp; [|discriminate].
    destruct (quantity <=? 0)%Z; [intros [= <- <- <- <-]; auto|].
    destruct (Product.stock p <? quantity)%Z;
      [intros [= <- <- <- <-]; auto|].
    set (down := fun p0 : Product.t float =>
           Product.mk float (Product.name p0) (Product.price p0)
             (Product.stock p0 - quantity) (Product.category p0)).
    assert (Hdown : forall p0, Product.name (down p0) = Product.name p0)
      by reflexivity.
    destruct (store_and_cart_modify h products product down Hdown
                (conj Hwf (conj Hu Hn))) as (Hwf' & Hu' & Hn').
    rewrite (_find_item_modify h product down items _ Hdown).
    destruct (_find_item h items (Product.name p)) as [i|] eqn:Hf.
    + apply _find_item_some in Hf; destruct Hf as (it & p2 & Hit & Hp2 & Hk).
      assert (Eref : CartItem.product it = product).
      { unfold cart_of_store in Hc; rewrite Forall_forall in Hc.
        apply (NoDup_map_injective (key h) products); auto.
        - apply Hc; eapply nth_error_In; exact Hit.
        - unfold key; rewrite Hp, Hp2; simpl; rewrite Hk.
          unfold names_stripped in Hn; rewrite Forall_forall in Hn.
          now rewrite (Hn p (nth_error_In _ _ Hp)). }
      set (more := fun existing : CartItem.t =>
             CartItem.mk (CartItem.product existing)
                         (CartItem.quantity existing + quantity)).
      intros [= <- <- <- <-]; refine (conj _ (conj Hwf' (conj Hu' (conj Hn' _)))).
      * intros r; rewrite (stock_of_modify h product r down p Hp).
        rewrite (in_cart_modify items i more it r Hit eq_refl), Eref.
        destruct (Nat.eqb_spec product r) as [<-|Hne].
        -- unfold stock_of; rewrite Hp; cbn; lia.
        -- lia.
      * apply Forall_modify; [exact Hc|]; intros x _ Hx; exact Hx.
    + intros [= <- <- <- <-]; refine (conj _ (conj Hwf' (conj Hu' (conj Hn' _)))).
      * intros r; rewrite (stock_of_modify h product r down p Hp).
        rewrite in_cart_app; unfold in_cart at 2; cbn.
        destruct (Nat.eqb_spec product r) as [<-|Hne].
        -- unfold stock_of; rewrite Hp; cbn; lia.
        -- cbn; lia.
      * apply Forall_app; split; [exact Hc|].
        constructor; [exact Hin | constructor].
  - intros product_name ok h' items'; unfold remove_from_cart.
    destruct (_find_item h items product_name) as [i|] eqn:Hf;
      [|intros [= <- <- <-]; auto].
    apply _find_item_some in Hf; destruct Hf as (it & p & Hit & Hp & _).
    rewrite Hit; intros [= <- <- <-].
    set (up := fun p0 : Product.t float =>
           Product.mk float (Product.name p0) (Product.price p0)
             (Product.stock p0 + CartItem.quantity it) (Product.category p0)).
    assert (Hup : forall p0, Product.name (up p0) = Product.name p0)
      by reflexivity.
    destruct (store_and_cart_modify h products (CartItem.product it) up Hup
                (conj Hwf (conj Hu Hn))) as (Hwf' & Hu' & Hn').
    refine (conj _ (conj Hwf' (conj Hu' (conj Hn' _)))).
    + intros r; rewrite (stock_of_modify h _ r up p Hp).
      rewrite (in_cart_remove_at items i it r Hit).
      destruct (Nat.eqb_spec (CartItem.product it) r) as [<-|Hne].
      * unfold stock_of; rewrite Hp; cbn; lia.
      * lia.
    + now apply Forall_remove_at.
Qed.

(** X14. [remove_from_cart] returns False exactly when no item of the
    cart has a product of that name (up to case and surrounding
    whitespace), and then changes nothing; in particular on an empty
    cart.  When it returns True the cart has one item less, an item of
    that name, and that item's units are back on its product's stock. *)
Theorem remove_from_cart_decides (h : heap (float:=float))
  (items : list CartItem.t) (product_name : text) :
  exists ok h' items',
    remove_from_cart h items product_name = (ok, h', items')
    /\ (ok = false
        <-> forall it, In it items ->
              key h (CartItem.product it)
              <> Some (lower (strip product_name)))
    /\ (ok = false -> h' = h /\ items' = items)
    /\ (ok = true ->
        S (List.length items') = List.length items
        /\ exists it,
             In it items
             /\ key h (CartItem.product it) = Some (lower (strip product_name))
             /\ stock_of h' (CartItem.product it)
                = (stock_of h (CartItem.product it) + CartItem.quantity it)%Z).
Proof.
  unfold remove_from_cart.
  destruct (_find_item h items product_name) as [i|] eqn:Hf.
  - pose proof Hf as Hf'; apply _find_item_some in Hf'.
    destruct Hf' as (it & p & Hit & Hp & Hk); rewrite Hit.
    assert (Hkey : key h (CartItem.product it)
                   = Some (lower (strip product_name))).
    { unfold key; rewrite Hp; simpl; now rewrite Hk. }
    do 3 eexists; split; [reflexivity|].
    refine (conj _ (conj _ _)).
    + split; [discriminate|]; intros Hall; exfalso.
      exact (Hall it (nth_error_In _ _ Hit) Hkey).
    + discriminate.
    + intros _; split.
      * clear Hf; revert i Hit; induction items as [|x items IH];
          intros [|i]; simpl; try discriminate; auto.
      * exists it; split; [eapply nth_error_In; exact Hit|].
        split; [exact Hkey|].
        rewrite (stock_of_modify h _ _ _ p Hp), Nat.eqb_refl.
        unfold stock_of; rewrite Hp; reflexivity.
  - do 3 eexists; split; [reflexivity|].
    refine (conj _ (conj _ _)).
    + split; [|reflexivity]; intros _ it HIn Hk.
      unfold _find_item in Hf.
      rewrite find_index_none in Hf.
      apply name_matches_key in Hk; now rewrite (Hf it HIn) in Hk.
    + auto.
    + discriminate.
Qed.

(** ** Saving and loading the inventory *)



Lemma build_products_invalid (ps : list (Product.t float)) :
  Exists (fun p => ~ valid negative p) ps ->
  exists msg,
    build_products negative
      (map (fun p => (Product.name p, Product.price p, Product.stock p,
                      Product.category p)) ps)
    = ValueError msg.
Proof.
  induction 1 as [p ps Hbad|p ps _ IH]; cbn [map build_products];
    unfold new_Product.
  - destruct (negative (Product.price p)) eqn:Hprice; [eauto|].
    destruct (Z.ltb_spec (Product.stock p) 0); [eauto|].
    exfalso; apply Hbad; split; auto.
  - destruct (negative (Product.price p)); [eauto|].
    destruct (Product.stock p <? 0)%Z; [eauto|].
    destruct IH as [msg ->]; eauto.
Qed.


(** X16. The unchecked path of [add_product] can spoil the saved
    inventory: when adding to an existing product takes its stock below
    0, or gives it a negative price, the call succeeds, and the
    inventory that [to_json] then writes is rejected by [from_json]
    with ValueError. *)
Theorem add_existing_can_spoil_inventory (h h0 : heap (float:=float))
  (products : list ref) (name : text) (price : float) (stock : Z)
  (category : text) (r : ref) (p : Product.t float) :
  find_product h products name = Some r ->
  nth_error h r = Some p ->
  (Product.stock p + stock < 0)%Z \/ negative price = true ->
  exists h',
    add_product negative h products name price stock category
      = Ok (h', products, r)
    /\ exists msg,
         from_json negative h0 (Some (to_json h' products))
         = ValueError msg.
Proof.
  intros Hfind Hp Hbad.
  pose proof (find_product_spec h products name) as Hspec.
  rewrite Hfind in Hspec; destruct Hspec as [HIn _].
  eexists; split; [unfold add_product; rewrite Hfind; reflexivity|].
  unfold from_json, to_json.
  match goal with
  | |- context [snapshot ?h' products] =>
      destruct (build_products_invalid (snapshot h' products)) as [msg ->];
        [|eauto]
  end.
  apply Exists_exists; eexists; split.
  - unfold snapshot; apply in_flat_map; exists r; split; [exact HIn|].
    rewrite modify_nth_same, Hp; simpl; left; reflexivity.
  - unfold valid; cbn; intros [Hprice Hstock].
    destruct Hbad as [Hneg|Hneg]; [lia | congruence].
Qed.

(** ** The product listing *)

Lemma by_cat_add_keys (G : list (text * list (Product.t float)))
  (p : Product.t float) (k : text) :
  In k (map fst (by_cat_add G p)) ->
  In k (map fst G) \/ k = Product.category p.
Proof.
  induction G as [|[cat plist] G IH]; simpl.
  - intros [<-|[]]; auto.
  - destruct (text_eqb cat (Product.category p)); simpl.
    + intros [<-|HIn]; auto.
    + intros [<-|HIn]; auto.
      destruct (IH HIn); auto.
Qed.

Lemma by_cat_add_NoDup (G : list (text * list (Product.t float)))
  (p : Product.t float) :
  NoDup (map fst G) -> NoDup (map fst (by_cat_add G p)).
Proof.
  induction G as [|[cat plist] G IH]; simpl.
  - intros _; constructor; [tauto | constructor].
  - intros Hnd; inversion Hnd as [|? ? Hcat HG]; subst.
    destruct (text_eqb cat (Product.category p)) eqn:E; simpl.
    + exact Hnd.
    + constructor; [|auto].
      intros HIn; apply by_cat_add_keys in HIn; destruct HIn as [HIn | ->];
        [now apply Hcat|].
      apply text_eqb_neq in E; now apply E.
Qed.

Lemma by_cat_add_has_key (G : list (text * list (Product.t float)))
  (p : Product.t float) :
  In (Product.category p) (map fst (by_cat_add G p))
  /\ (forall k, In k (map fst G) -> In k (map fst (by_cat_add G p))).
Proof.
  induction G as [|[cat plist] G [IH1 IH2]]; simpl.
  - split; [now left | tauto].
  - destruct (text_eqb cat (Product.category p)) eqn:E; simpl.
    + apply text_eqb_eq in E; split; [now left | auto].
    + split; [now right|]; intros k [<-|HIn]; auto.
Qed.

Lemma by_cat_add_perm (G : list (text * list (Product.t float)))
  (p : Product.t float) :
  Permutation (List.concat (map snd (by_cat_add G p)))
              (p :: List.concat (map snd G)).
Proof.
  induction G as [|[cat plist] G IH]; simpl.
  - apply Permutation_refl.
  - destruct (text_eqb cat (Product.category p)); simpl.
    + rewrite <- app_assoc; simpl.
      apply Permutation_sym, Permutation_middle.
    + eapply Permutation_trans;
        [apply Permutation_app_head; exact IH|].
      apply Permutation_sym, Permutation_middle.
Qed.

Lemma by_cat_add_categories (G : list (text * list (Product.t float)))
  (p : Product.t float) :
  Forall (fun g => Forall (fun q => Product.category q = fst g) (snd g)) G ->
  Forall (fun g => Forall (fun q => Product.category q = fst g) (snd g))
         (by_cat_add G p).
Proof.
  induction 1 as [|[cat plist] G Hg HG IH]; simpl.
  - repeat constructor.
  - destruct (text_eqb cat (Product.category p)) eqn:E.
    + constructor; [|exact HG].
      simpl in *; apply Forall_app; split; [exact Hg|].
      apply text_eqb_eq in E; repeat constructor; auto.
    + constructor; [exact Hg | exact IH].
Qed.

Lemma group_fold (ps : list (Product.t float))
  (G : list (text * list (Product.t float))) :
  NoDup (map fst G) ->
  Forall (fun g => Forall (fun q => Product.category q = fst g) (snd g)) G ->
  let G' := fold_left by_cat_add ps G in
  NoDup (map fst G')
  /\ Forall (fun g => Forall (fun q => Product.category q = fst g) (snd g)) G'
  /\ Permutation (List.concat (map snd G')) (List.concat (map snd G) ++ ps)
  /\ (forall p, In p ps -> In (Product.category p) (map fst G'))
  /\ (forall k, In k (map fst G) -> In k (map fst G')).
Proof.
  revert G; induction ps as [|p ps IH]; intros G Hnd Hcat; simpl.
  - rewrite app_nil_r; repeat split; auto; tauto.
  - destruct (IH (by_cat_add G p) (by_cat_add_NoDup G p Hnd)
                (by_cat_add_categories G p Hcat))
      as (H1 & H2 & H3 & H4 & H5).
    destruct (by_cat_add_has_key G p) as [Hk1 Hk2].
    refine (conj H1 (conj H2 (conj _ (conj _ _)))).
    + eapply Permutation_trans; [exact H3|].
      eapply Permutation_trans;
        [apply Permutation_app_tail, by_cat_add_perm|].
      simpl; apply Permutation_middle.
    + intros q [<-|HIn]; auto.
    + auto.
Qed.

Lemma print_plist_spec (idx : Z) (plist : list (Product.t float)) :
  print_plist idx plist
  = (map (fun row => Numbered (fst row) (snd row)) (number_from idx plist),
     (idx + Z.of_nat (List.length plist))%Z).
Proof.
  revert idx; induction plist as [|p plist IH]; intros idx; simpl.
  - f_equal; lia.
  - rewrite IH; f_equal; lia.
Qed.

Lemma number_from_app (idx : Z) (a b : list (Product.t float)) :
  number_from idx (a ++ b)
  = number_from idx a ++ number_from (idx + Z.of_nat (List.length a)) b.
Proof.
  revert idx; induction a as [|p a IH]; intros idx; simpl.
  - f_equal; lia.
  - rewrite IH; do 3 f_equal; lia.
Qed.

Lemma number_from_fst (s : nat) (l : list (Product.t float)) :
  map fst (number_from (Z.of_nat s) l)
  = map Z.of_nat (seq s (List.length l)).
Proof.
  revert s; induction l as [|p l IH]; intros s; simpl; [reflexivity|].
  f_equal; rewrite <- IH; do 2 f_equal; lia.
Qed.

Lemma number_from_snd (idx : Z) (l : list (Product.t float)) :
  map snd (number_from idx l) = l.
Proof.
  revert idx; induction l as [|p l IH]; intros idx; simpl; [reflexivity|].
  now rewrite IH.
Qed.

Lemma numbered_rows (rows : list (Z * Product.t float)) (ls : list line) :
  numbered (map (fun row => Numbered (fst row) (snd row)) rows ++ ls)
  = rows ++ numbered ls.
Proof.
  induction rows as [|[i p] rows IH]; simpl; [reflexivity|].
  f_equal; exact IH.
Qed.

Lemma headings_rows (rows : list (Z * Product.t float)) (ls : list line) :
  headings (map (fun row => Numbered (fst row) (snd row)) rows ++ ls)
  = headings ls.
Proof. induction rows as [|[i p] rows IH]; simpl; auto. Qed.

Lemma under_headings_rows (current : option text)
  (rows : list (Z * Product.t float)) (ls : list line) :
  under_headings current
    (map (fun row => Numbered (fst row) (snd row)) rows ++ ls)
  = map (fun row => (current, row)) rows ++ under_headings current ls.
Proof.
  induction rows as [|[i p] rows IH]; simpl; [reflexivity|].
  f_equal; exact IH.
Qed.

Lemma print_by_cat_cons (idx : Z) (cat : text)
  (plist : list (Product.t float))
  (G : list (text * list (Product.t float))) :
  print_by_cat idx ((cat, plist) :: G)
  = Heading cat
    :: map (fun row => Numbered (fst row) (snd row)) (number_from idx plist)
       ++ print_by_cat (idx + Z.of_nat (List.length plist)) G.
Proof. simpl; now rewrite print_plist_spec. Qed.

Lemma print_by_cat_spec (G : list (text * list (Product.t float))) :
  Forall (fun g => Forall (fun q => Product.category q = fst g) (snd g)) G ->
  forall (idx : Z) (current : option text),
    numbered (print_by_cat idx G) = number_from idx (List.concat (map snd G))
    /\ headings (print_by_cat idx G) = map fst G
    /\ Forall (fun row => fst row = Some (Product.category (snd (snd row))))
              (under_headings current (print_by_cat idx G))
    /\ map snd (under_headings current (print_by_cat idx G))
       = numbered (print_by_cat idx G).
Proof.
  induction 1 as [|[cat plist] G Hg _ IH]; intros idx current.
  - repeat split; constructor.
  - rewrite print_by_cat_cons.
    destruct (IH (idx + Z.of_nat (List.length plist))%Z (Some cat))
      as (I1 & I2 & I3 & I4).
    set (rest := print_by_cat (idx + Z.of_nat (List.length plist)) G) in *.
    set (rows := number_from idx plist).
    set (block := map (fun row => Numbered (fst row) (snd row)) rows ++ rest).
    change (numbered (Heading cat :: block)) with (numbered block).
    change (headings (Heading cat :: block)) with (cat :: headings block).
    change (under_headings current (Heading cat :: block))
      with (under_headings (Some cat) block).
    unfold block; rewrite numbered_rows, headings_rows, under_headings_rows.
    cbn [map snd List.concat]; refine (conj _ (conj _ (conj _ _))).
    + unfold rows; now rewrite number_from_app, I1.
    + now rewrite I2.
    + apply Forall_app; split; [|exact I3].
      rewrite Forall_forall; intros row HIn; apply in_map_iff in HIn.
      destruct HIn as ([i q] & <- & HIn); simpl; f_equal.
      assert (Hq : In q plist).
      { rewrite <- (number_from_snd idx plist).
        now apply (in_map snd) in HIn. }
      simpl in Hg; rewrite Forall_forall in Hg; symmetry; now apply Hg.
    + now rewrite map_app, map_map, map_id, I4.
Qed.

(** X17. The product listing shows every product of the store exactly
    once: an empty store prints the one line saying so; otherwise,
    after the title line, the products are numbered 1, 2, 3, ... in the
    order printed, they are the store's products rearranged, every
    category has one heading, and every product stands under the
    heading of its own category. *)
Theorem format_products_lists_all (h : heap (float:=float))
  (products : list ref) :
  let ps := snapshot h products in
  let ls := format_products h products in
  (ps = [] -> ls = [Text "No products yet."])
  /\ (ps <> [] ->
      hd_error ls = Some (Text "Available products:")
      /\ map fst (numbered ls) = map Z.of_nat (seq 1 (List.length ps))
      /\ Permutation (map snd (numbered ls)) ps
      /\ NoDup (headings ls)
      /\ (forall p, In p ps -> In (Product.category p) (headings ls))
      /\ Forall (fun row => fst row = Some (Product.category (snd (snd row))))
                (under_headings None ls)
      /\ map snd (under_headings None ls) = numbered ls).
Proof.
  intros ps ls; unfold ls, format_products; fold ps; clearbody ps.
  split; [intros ->; reflexivity|].
  intros Hne.
  destruct (group_fold ps [] (NoDup_nil _) (Forall_nil _))
    as (G1 & G2 & G3 & G4 & _).
  fold (group_by_category ps) in G1, G2, G3, G4.
  destruct (print_by_cat_spec (group_by_category ps) G2 1%Z None)
    as (P1 & P2 & P3 & P4).
  set (body := print_by_cat 1 (group_by_category ps)) in *.
  assert (Els : match ps with
                | [] => [Text "No products yet."]
                | _ :: _ => Text "Available products:" :: body
                end = Text "Available products:" :: body).
  { destruct ps; [congruence | reflexivity]. }
  rewrite Els; clear Els.
  change (numbered (Text "Available products:" :: body)) with (numbered body).
  change (headings (Text "Available products:" :: body)) with (headings body).
  change (under_headings None (Text "Available products:" :: body))
    with (under_headings None body).
  assert (Hlen : List.length (List.concat (map snd (group_by_category ps)))
                 = List.length ps).
  { apply Permutation_length; exact G3. }
  refine (conj eq_refl (conj _ (conj _ (conj _ (conj _ (conj P3 P4)))))).
  - rewrite P1; change 1%Z with (Z.of_nat 1).
    now rewrite number_from_fst, Hlen.
  - rewrite P1, number_from_snd; exact G3.
  - now rewrite P2.
  - now rewrite P2.
Qed.

End Props.

(** ** The theorems at work on the small inventory *)

Lemma shelf_wf : wf_refs shelf shelf_refs.
Proof. unfold wf_refs, shelf, shelf_refs; repeat constructor. Defined.

Lemma shelf_unique : @unique_names ascii_only Z shelf shelf_refs.
Proof.
  unfold unique_names; vm_compute.
  constructor; [simpl; intros [E|[]]; discriminate E|].
  constructor; [simpl; tauto | constructor].
Defined.

Lemma shelf_stripped : @names_stripped ascii_only Z shelf.
Proof. unfold names_stripped, shelf; repeat constructor. Defined.

Lemma add_new_product_witness :
  @add_product ascii_only Z below_zero shelf shelf_refs
    (str "  Ink ") 7%Z 4%Z []
  = Ok (shelf ++ [Product.mk Z (str "Ink") 7%Z 4%Z (str "General")],
        [0%nat; 1%nat; 2%nat], 2%nat).
Proof.
  refine (proj1 (@add_new_product ascii_only Z below_zero shelf shelf_refs
                   (str "  Ink ") 7%Z 4%Z [] shelf_wf _ _ _)).
  - vm_compute; reflexivity.
  - reflexivity.
  - lia.
Defined.

Lemma add_invalid_product_witness :
  @add_product ascii_only Z below_zero shelf shelf_refs
    (str "Ink") 7%Z (-1)%Z []
  = ValueError "Stock cannot be negative.".
Proof.
  refine (proj2 (@add_invalid_product ascii_only Z below_zero shelf
                   shelf_refs (str "Ink") 7%Z (-1)%Z [] _) _ _).
  - vm_compute; reflexivity.
  - reflexivity.
  - lia.
Defined.

Lemma add_existing_product_witness :
  exists h',
    @add_product ascii_only Z below_zero shelf shelf_refs
      (str " APPLE") 4%Z (-25)%Z []
    = Ok (h', shelf_refs, 0%nat)
    /\ nth_error h' 0%nat
       = Some (Product.mk Z (str "Apple") 4%Z (-15)%Z (str "Fruit")).
Proof.
  destruct (@add_existing_product ascii_only Z below_zero shelf shelf_refs
              (str " APPLE") 4%Z (-25)%Z [] 0%nat)
    as (p & h' & Hp & _ & Hadd & Hnew & _).
  - vm_compute; reflexivity.
  - exists h'; split; [exact Hadd|].
    injection Hp as <-; exact Hnew.
Defined.

Lemma add_product_keeps_names_unique_witness :
  @unique_names ascii_only Z
    (shelf ++ [Product.mk Z (str "Ink") 7%Z 4%Z (str "General")])
    [0%nat; 1%nat; 2%nat].
Proof.
  refine (proj1 (proj2 (@add_product_keeps_names_unique ascii_only Z
            below_zero shelf shelf_refs (str "  Ink ") 7%Z 4%Z [] _ _ _
            shelf_wf shelf_unique shelf_stripped _))).
  vm_compute; reflexivity.
Defined.

Lemma add_to_cart_decides_witness :
  exists ok h' items' out,
    @add_to_cart ascii_only Z shelf [] 0%nat 11%Z = Some (ok, h', items', out)
    /\ (ok = true <-> (0 < 11 <= 10)%Z).
Proof.
  destruct (@add_to_cart_decides ascii_only Z shelf [] 0%nat 11%Z
              (Product.mk Z (str "Apple") 3%Z 10%Z (str "Fruit")) eq_refl)
    as (ok & h' & items' & out & Hadd & Hok & _).
  exists ok, h', items', out; split; [exact Hadd | exact Hok].
Defined.

Lemma cart_conserves_units_witness :
  exists ok h' items' out,
    @add_to_cart ascii_only Z shelf [] 1%nat 2%Z = Some (ok, h', items', out)
    /\ (total_stock h' + total_quantity items' = 15)%Z.
Proof.
  do 4 eexists; split; [vm_compute; reflexivity|].
  refine (proj1 (@cart_conserves_units ascii_only Z shelf [])
            1%nat 2%Z _ _ _ _ _).
  vm_compute; reflexivity.
Defined.

Lemma add_then_remove_restores_witness :
  exists h1 items1,
    @add_to_cart ascii_only Z shelf [] 1%nat 2%Z = Some (true, h1, items1, [])
    /\ stock_of h1 1%nat = (5 - 2)%Z
    /\ @remove_from_cart ascii_only Z h1 items1 (str "Pen")
       = (true, shelf, []).
Proof.
  refine (@add_then_remove_restores ascii_only Z shelf [] 1%nat 2%Z
            (Product.mk Z (str "Pen") 2%Z 5%Z (str "General"))
            eq_refl _ _ _).
  - cbn; lia.
  - vm_compute; reflexivity.
  - reflexivity.
Defined.

Lemma cart_keeps_stock_nonnegative_witness :
  exists ok h' items' out,
    @add_to_cart ascii_only Z shelf [] 0%nat 10%Z = Some (ok, h', items', out)
    /\ stocks_nonnegative h' /\ quantities_positive items'.
Proof.
  do 4 eexists; split; [vm_compute; reflexivity|].
  refine (proj1 (@cart_keeps_stock_nonnegative ascii_only Z shelf [] _ _)
            0%nat 10%Z _ _ _ _ _).
  - unfold stocks_nonnegative, shelf; repeat constructor; cbn; lia.
  - constructor.
  - vm_compute; reflexivity.
Defined.

Lemma cart_conserves_each_product_witness :
  exists ok h' items' out,
    @add_to_cart ascii_only Z shelf [CartItem.mk 0%nat 1%Z] 0%nat 4%Z
      = Some (ok, h', items', out)
    /\ (stock_of h' 0%nat + in_cart items' 0%nat = 10 + 1)%Z.
Proof.
  do 4 eexists; split; [vm_compute; reflexivity|].
  refine (proj1 (proj1 (@cart_conserves_each_product ascii_only Z shelf
            shelf_refs [CartItem.mk 0%nat 1%Z] shelf_wf shelf_unique
            shelf_stripped _) 0%nat 4%Z _ _ _ _ _ _) 0%nat).
  - repeat constructor.
  - now left.
  - vm_compute; reflexivity.
Defined.


Lemma add_existing_can_spoil_inventory_witness :
  exists h',
    @add_product ascii_only Z below_zero shelf shelf_refs
      (str "pen") 2%Z (-6)%Z []
    = Ok (h', shelf_refs, 1%nat)
    /\ exists msg,
         @from_json ascii_only Z below_zero []
           (Some (to_json h' shelf_refs)) = ValueError msg.
Proof.
  refine (@add_existing_can_spoil_inventory ascii_only Z below_zero shelf []
            shelf_refs (str "pen") 2%Z (-6)%Z [] 1%nat
            (Product.mk Z (str "Pen") 2%Z 5%Z (str "General")) _ eq_refl _).
  - vm_compute; reflexivity.
  - left; cbn; lia.
Defined.

Lemma format_products_lists_all_witness :
  map fst (numbered (format_products shelf shelf_refs))
  = [1%Z; 2%Z].
Proof.
  refine (proj1 (proj2 (proj2 (@format_products_lists_all Z shelf
            shelf_refs) _))).
  discriminate.
Defined.

End MiniStoreProps.
